(** * SFML Snake: a shallow embedding of [main.cpp] and its properties

  The game logic of [main.cpp] (the [Snake] class, the food placer, the
  event handlers and the fixed-step update loop of [main]) is rendered as
  Rocq functions over an explicit game state.  Rendering is left out: it
  reads the state and never writes it. *)

From Stdlib Require Import ZArith List Bool Lia FinFun.
From Stdlib Require Import Floats.SpecFloat.
Import ListNotations.

Local Open Scope Z_scope.

(** ** Single-precision floats

  [cfg.moveInterval], [acc] and the clock reading are C++ [float]s: IEEE
  binary32, every operation rounded to nearest-even.  [SpecFloat] gives
  that arithmetic for any precision; binary32 has 24 significant bits and
  exponents below 128. *)

Module F32.

Definition prec : Z := 24.
Definition emax : Z := 128.

Definition float32 : Type := spec_float.

Definition of_Z (z : Z) : float32 := binary_normalize prec emax z 0 false.

Definition add (x y : float32) : float32 := SFadd prec emax x y.
Definition sub (x y : float32) : float32 := SFsub prec emax x y.
Definition mul (x y : float32) : float32 := SFmul prec emax x y.
Definition div (x y : float32) : float32 := SFdiv prec emax x y.

(** C++ comparisons; all of them are false on NaN. *)
Definition ltb (x y : float32) : bool := SFltb x y.
Definition leb (x y : float32) : bool := SFleb x y.
Definition gtb (x y : float32) : bool := SFltb y x.
Definition geb (x y : float32) : bool := SFleb y x.

(** The literal [n/d] written in decimal: the binary32 value nearest to
    the quotient (a correctly rounded division of two exact integers). *)
Definition lit (n d : Z) : float32 := div (of_Z n) (of_Z d).

Definition zero : float32 := S754_zero false.

(** [0.12f], [0.92f] and [0.04f]. *)
Definition f0_12 : float32 := Eval vm_compute in lit 12 100.
Definition f0_92 : float32 := Eval vm_compute in lit 92 100.
Definition f0_04 : float32 := Eval vm_compute in lit 4 100.

End F32.

Definition float32 : Type := F32.float32.

(** ** Results of code that may loop or leave the defined behaviour *)

Inductive result (A : Type) : Type :=
| Ok (a : A)
| Undefined      (* the C++ standard gives the call no meaning *)
| OutOfFuel.     (* the loop was still running when the fuel ran out *)

Arguments Ok {A} a.
Arguments Undefined {A}.
Arguments OutOfFuel {A}.

Definition bind {A B : Type} (r : result A) (k : A -> result B) : result B :=
  match r with
  | Ok a => k a
  | Undefined => Undefined
  | OutOfFuel => OutOfFuel
  end.

Notation "v <- e ;; k" := (bind e (fun v => k))
  (at level 61, e at next level, right associativity).

(** ** [Vec2i]

    [sf::Vector2i] holds two [int]s.  They are kept as [Z]: while the game
    is on, every cell of the snake is on the grid (see [invariant]), the
    head leaves it by one cell at most, and the score grows by 10 per meal,
    so no operation of the game comes near the 32-bit range, where signed
    overflow would be undefined. *)

Record Vec2i : Type := vec2i { x : Z; y : Z }.

Definition Vec2i_eqb (a b : Vec2i) : bool :=
  (x a =? x b) && (y a =? y b).

Definition Vec2i_add (a b : Vec2i) : Vec2i :=
  vec2i (x a + x b) (y a + y b).

Definition Vec2i_neg (a : Vec2i) : Vec2i := vec2i (- x a) (- y a).

(** ** [GameConfig] *)

Record GameConfig : Type := {
  cellSize : Z;
  cols : Z;                 (* grid width *)
  rows : Z;                 (* grid height *)
  moveInterval : float32    (* seconds per move *)
}.

Definition defaultConfig : GameConfig :=
  {| cellSize := 20; cols := 32; rows := 24; moveInterval := F32.f0_12 |}.

(** ** [class Snake] *)

Record Snake : Type := {
  body : list Vec2i;        (* front is head *)
  dir : Vec2i;
  growNext : bool
}.

Module Snake.

(** The constructor pushes [start.x - i] for [i = 0 .. initialLength - 1];
    a non-positive length pushes nothing. *)
Definition make (start : Vec2i) (initialLength : Z) : Snake :=
  {| body := map (fun i => vec2i (x start - Z.of_nat i) (y start))
                 (seq 0 (Z.to_nat initialLength));
     dir := vec2i 1 0;
     growNext := false |}.

(** [body.front()]: undefined on an empty deque. *)
Definition head (s : Snake) : result Vec2i :=
  match body s with
  | [] => Undefined
  | h :: _ => Ok h
  end.

Definition setDirection (s : Snake) (d : Vec2i) : Snake :=
  if (1 <? Z.of_nat (length (body s))) && Vec2i_eqb d (Vec2i_neg (dir s))
  then s
  else {| body := body s; dir := d; growNext := growNext s |}.

Definition move (s : Snake) : result Snake :=
  h <- head s ;;
  let newHead := Vec2i_add h (dir s) in
  let pushed := newHead :: body s in
  Ok {| body := if negb (growNext s) then removelast pushed else pushed;
        dir := dir s;
        growNext := false |}.

Definition grow (s : Snake) : Snake :=
  {| body := body s; dir := dir s; growNext := true |}.

(** The loop runs over the indices [1 .. size - 1]. *)
Definition collidesWithSelf (s : Snake) : result bool :=
  h <- head s ;;
  Ok (existsb (fun seg => Vec2i_eqb seg h) (tl (body s))).

Definition occupies (s : Snake) (p : Vec2i) : bool :=
  existsb (fun seg => Vec2i_eqb seg p) (body s).

End Snake.

(** ** [struct RNG]

    [std::mt19937] and [std::uniform_int_distribution] belong to the
    standard library.  What the game relies on is [nextInt]: it advances the
    generator and returns a value of the closed range [a .. b]. *)

Class RandomSource (G : Type) : Type := {
  nextInt : G -> Z -> Z -> Z * G;
  nextInt_range : forall g a b, a <= b -> a <= fst (nextInt g a b) <= b
}.

(** ** [sf::Clock] and [sf::Time]

    A clock remembers the instant it was last restarted; [restart] returns
    the time elapsed since then and makes the present instant the new
    origin.  Instants and durations are whole microseconds, as [sf::Time]
    stores them, and [asSeconds] converts to a [float]. *)

Module Clock.

Definition restart (now origin : Z) : Z * Z := (now - origin, now).

Definition asSeconds (us : Z) : float32 :=
  F32.div (F32.of_Z us) (F32.of_Z 1000000).

End Clock.

(** ** Events *)

Module Keyboard.

Inductive Key : Type :=
| Escape | P | R | Up | W | Down | S | Left | A | Right | D | Other.

Definition eqb (a b : Key) : bool :=
  match a, b with
  | Escape, Escape | P, P | R, R | Up, Up | W, W | Down, Down
  | S, S | Left, Left | A, A | Right, Right | D, D
  | Other, Other => true
  | _, _ => false
  end.

End Keyboard.

Inductive Event : Type :=
| Closed
| KeyPressed (code : Keyboard.Key)
| OtherEvent.

(** ** The locals of [main] *)

Record Game (G : Type) : Type := mkGame {
  cfg : GameConfig;
  startPos : Vec2i;
  snake : Snake;
  rng : G;
  food : Vec2i;
  score : Z;
  paused : bool;
  gameOver : bool;
  moveClock : Z;            (* origin of the clock, in microseconds *)
  acc : float32;
  isOpen : bool             (* window.isOpen() *)
}.

Arguments mkGame {G}.
Arguments cfg {G}.
Arguments startPos {G}.
Arguments snake {G}.
Arguments rng {G}.
Arguments food {G}.
Arguments score {G}.
Arguments paused {G}.
Arguments gameOver {G}.
Arguments moveClock {G}.
Arguments acc {G}.
Arguments isOpen {G}.

Inductive flow : Type := Continue | Break.

Section Main.

Context {G : Type} {RS : RandomSource G}.

Definition set_cfg (c : GameConfig) (g : Game G) : Game G :=
  mkGame c (startPos g) (snake g) (rng g) (food g) (score g)
         (paused g) (gameOver g) (moveClock g) (acc g) (isOpen g).

Definition set_snake (s : Snake) (g : Game G) : Game G :=
  mkGame (cfg g) (startPos g) s (rng g) (food g) (score g)
         (paused g) (gameOver g) (moveClock g) (acc g) (isOpen g).

Definition set_rng (r : G) (g : Game G) : Game G :=
  mkGame (cfg g) (startPos g) (snake g) r (food g) (score g)
         (paused g) (gameOver g) (moveClock g) (acc g) (isOpen g).

Definition set_food (p : Vec2i) (g : Game G) : Game G :=
  mkGame (cfg g) (startPos g) (snake g) (rng g) p (score g)
         (paused g) (gameOver g) (moveClock g) (acc g) (isOpen g).

Definition set_score (n : Z) (g : Game G) : Game G :=
  mkGame (cfg g) (startPos g) (snake g) (rng g) (food g) n
         (paused g) (gameOver g) (moveClock g) (acc g) (isOpen g).

Definition set_paused (b : bool) (g : Game G) : Game G :=
  mkGame (cfg g) (startPos g) (snake g) (rng g) (food g) (score g)
         b (gameOver g) (moveClock g) (acc g) (isOpen g).

Definition set_gameOver (b : bool) (g : Game G) : Game G :=
  mkGame (cfg g) (startPos g) (snake g) (rng g) (food g) (score g)
         (paused g) b (moveClock g) (acc g) (isOpen g).

Definition set_moveClock (t : Z) (g : Game G) : Game G :=
  mkGame (cfg g) (startPos g) (snake g) (rng g) (food g) (score g)
         (paused g) (gameOver g) t (acc g) (isOpen g).

Definition set_acc (a : float32) (g : Game G) : Game G :=
  mkGame (cfg g) (startPos g) (snake g) (rng g) (food g) (score g)
         (paused g) (gameOver g) (moveClock g) a (isOpen g).

Definition set_isOpen (b : bool) (g : Game G) : Game G :=
  mkGame (cfg g) (startPos g) (snake g) (rng g) (food g) (score g)
         (paused g) (gameOver g) (moveClock g) (acc g) b.

(** The lambda [placeFood]: rejection sampling, one round per unit of
    fuel. *)
Fixpoint placeFood (fuel : nat) (g : Game G) : result (Game G) :=
  match fuel with
  | O => OutOfFuel
  | S fuel' =>
      let (px, r1) := nextInt (rng g) 0 (cols (cfg g) - 1) in
      let (py, r2) := nextInt r1 0 (rows (cfg g) - 1) in
      let g := set_rng r2 g in
      if negb (Snake.occupies (snake g) (vec2i px py))
      then Ok (set_food (vec2i px py) g)
      else placeFood fuel' g
  end.

(** The state on entry to the main loop, the clock being created at the
    instant [t0]. *)
Definition initGame (fuel : nat) (r0 : G) (t0 : Z) : result (Game G) :=
  let c := defaultConfig in
  let start := vec2i (Z.quot (cols c) 2) (Z.quot (rows c) 2) in
  placeFood fuel
    {| cfg := c; startPos := start; snake := Snake.make start 5;
       rng := r0; food := vec2i 0 0; score := 0;
       paused := false; gameOver := false;
       moveClock := t0; acc := F32.zero; isOpen := true |}.

(** The handler of the key R. *)
Definition restart (fuel : nat) (now : Z) (g : Game G) : result (Game G) :=
  let g := set_snake (Snake.make (startPos g) 5) g in
  g <- placeFood fuel g ;;
  let g := set_score 0 g in
  let g := set_paused false g in
  let g := set_gameOver false g in
  Ok (set_moveClock (snd (Clock.restart now (moveClock g))) g).

Definition steer (code : Keyboard.Key) (s : Snake) : Snake :=
  let s := if Keyboard.eqb code Keyboard.Up || Keyboard.eqb code Keyboard.W
           then Snake.setDirection s (vec2i 0 (-1)) else s in
  let s := if Keyboard.eqb code Keyboard.Down || Keyboard.eqb code Keyboard.S
           then Snake.setDirection s (vec2i 0 1) else s in
  let s := if Keyboard.eqb code Keyboard.Left || Keyboard.eqb code Keyboard.A
           then Snake.setDirection s (vec2i (-1) 0) else s in
  if Keyboard.eqb code Keyboard.Right || Keyboard.eqb code Keyboard.D
  then Snake.setDirection s (vec2i 1 0) else s.

(** The body of the event loop, for an event handled at the instant
    [now]. *)
Definition handleEvent (fuel : nat) (now : Z) (ev : Event) (g : Game G)
  : result (Game G) :=
  match ev with
  | Closed => Ok (set_isOpen false g)
  | KeyPressed code =>
      let g := if Keyboard.eqb code Keyboard.Escape then set_isOpen false g else g in
      let g := if Keyboard.eqb code Keyboard.P then set_paused (negb (paused g)) g else g in
      g <- (if Keyboard.eqb code Keyboard.R then restart fuel now g else Ok g) ;;
      Ok (if negb (gameOver g) then set_snake (steer code (snake g)) g else g)
  | OtherEvent => Ok g
  end.

(** [while (const auto event = window.pollEvent())]: a closed window
    delivers no further event. *)
Fixpoint pollEvents (fuel : nat) (now : Z) (evs : list Event) (g : Game G)
  : result (Game G) :=
  match evs with
  | [] => Ok g
  | ev :: evs' =>
      if isOpen g
      then g' <- handleEvent fuel now ev g ;; pollEvents fuel now evs' g'
      else Ok g
  end.

(** The speed-up that follows a meal. *)
Definition speedUp (g : Game G) : Game G :=
  if (Z.rem (score g) 50 =? 0) && F32.gtb (moveInterval (cfg g)) F32.f0_04
  then set_cfg {| cellSize := cellSize (cfg g);
                  cols := cols (cfg g);
                  rows := rows (cfg g);
                  moveInterval := F32.mul (moveInterval (cfg g)) F32.f0_92 |} g
  else g.

Definition outside (c : GameConfig) (h : Vec2i) : bool :=
  (x h <? 0) || (x h >=? cols c) || (y h <? 0) || (y h >=? rows c).

(** One pass through the body of [while (acc >= cfg.moveInterval)]. *)
Definition iteration (fuel : nat) (g : Game G) : result (flow * Game G) :=
  let g := set_acc (F32.sub (acc g) (moveInterval (cfg g))) g in
  s <- Snake.move (snake g) ;;
  let g := set_snake s g in
  h <- Snake.head (snake g) ;;
  if outside (cfg g) h then Ok (Break, set_gameOver true g)
  else
    hit <- Snake.collidesWithSelf (snake g) ;;
    if hit then Ok (Break, set_gameOver true g)
    else
      h' <- Snake.head (snake g) ;;
      if Vec2i_eqb h' (food g)
      then
        let g := set_snake (Snake.grow (snake g)) g in
        let g := set_score (score g + 10) g in
        g <- placeFood fuel g ;;
        Ok (Continue, speedUp g)
      else Ok (Continue, g).

Fixpoint moveLoop (fuel : nat) (g : Game G) : result (Game G) :=
  if F32.geb (acc g) (moveInterval (cfg g))
  then
    match fuel with
    | O => OutOfFuel
    | S fuel' =>
        r <- iteration fuel' g ;;
        match r with
        | (Break, g') => Ok g'
        | (Continue, g') => moveLoop fuel' g'
        end
    end
  else Ok g.

(** The update section of a frame, the clock being read at [now]. *)
Definition update (fuel : nat) (now : Z) (g : Game G) : result (Game G) :=
  if negb (paused g) && negb (gameOver g)
  then
    let (elapsed, origin) := Clock.restart now (moveClock g) in
    let dt := Clock.asSeconds elapsed in
    let g := set_moveClock origin g in
    let g := set_acc (F32.add (acc g) dt) g in
    moveLoop fuel g
  else Ok (set_moveClock (snd (Clock.restart now (moveClock g))) g).

(** A frame: the events the window delivers, the instant at which they are
    handled and the instant at which the update reads the clock. *)
Record Frame : Type := {
  events : list Event;
  tPoll : Z;
  tUpdate : Z
}.

Definition frame (fuel : nat) (fr : Frame) (g : Game G) : result (Game G) :=
  g <- pollEvents fuel (tPoll fr) (events fr) g ;;
  update fuel (tUpdate fr) g.

(** [while (window.isOpen())] over the frames the environment provides. *)
Fixpoint run (fuel : nat) (frs : list Frame) (g : Game G) : result (Game G) :=
  match frs with
  | [] => Ok g
  | fr :: frs' =>
      if isOpen g
      then g' <- frame fuel fr g ;; run fuel frs' g'
      else Ok g
  end.

End Main.

(** ** A scripted random source

    The generator reads its outcomes off a list and clamps each into the
    requested range; an exhausted list keeps answering with the lower
    bound. *)

Definition clamp (a b z : Z) : Z := Z.max a (Z.min b z).

Definition scripted_nextInt (l : list Z) (a b : Z) : Z * list Z :=
  match l with
  | [] => (a, [])
  | z :: l' => (clamp a b z, l')
  end.

#[export] Instance Scripted : RandomSource (list Z).
Proof.
  refine {| nextInt := scripted_nextInt |}.
  intros l a b Hab. destruct l as [|z l]; simpl; unfold clamp; lia.
Defined.

(** Frames spaced [step] microseconds apart, the first one at [t + step],
    each handling its events at the instant it updates. *)
Fixpoint frames_from (t step : Z) (evss : list (list Event)) : list Frame :=
  match evss with
  | [] => []
  | evs :: evss' =>
      {| events := evs; tPoll := t + step; tUpdate := t + step |}
      :: frames_from (t + step) step evss'
  end.

(** * Vocabulary of the properties *)

(** [d] is the exact reverse of the stored direction of a snake longer than
    one cell: the call [setDirection d] is turned down. *)
Definition reverses (s : Snake) (d : Vec2i) : Prop :=
  (1 < length (body s))%nat /\ d = Vec2i_neg (dir s).

Definition startSnake : Snake := Snake.make (vec2i 16 12) 5.

(** A cell of the grid. *)
Definition inside (c : GameConfig) (p : Vec2i) : Prop :=
  0 <= x p < cols c /\ 0 <= y p < rows c.

(** No key R among the events of a frame. *)
Definition no_restart (fr : Frame) : Prop :=
  ~ In (KeyPressed Keyboard.R) (events fr).

(** The four directions the keys stand for. *)
Definition directions : list Vec2i :=
  [vec2i 0 (-1); vec2i 0 1; vec2i (-1) 0; vec2i 1 0].

(** The move intervals the speed-up can produce from [0.12f]: each value
    above [0.04f] is followed by its product with [0.92f]. *)
Fixpoint intervalsFrom (n : nat) (mi : float32) : list float32 :=
  match n with
  | O => [mi]
  | S n' =>
      mi :: intervalsFrom n'
              (if F32.gtb mi F32.f0_04 then F32.mul mi F32.f0_92 else mi)
  end.

Definition intervals : list float32 :=
  Eval vm_compute in intervalsFrom 14 F32.f0_12.

(** The shortest interval of the list, about 0.0373 s. *)
Definition shortestInterval : float32 :=
  Eval vm_compute in last intervals F32.zero.

Section Vocabulary.

Context {G : Type} {RS : RandomSource G}.

(** The session is in state Running: the guard of the update section. *)
Definition running (g : Game G) : Prop :=
  paused g = false /\ gameOver g = false.

(** Within [n] rounds of two draws the generator [r] names a cell that the
    snake [s] does not occupy. *)
Fixpoint drawsFree (n : nat) (c : GameConfig) (s : Snake) (r : G) : bool :=
  match n with
  | O => false
  | S n' =>
      let (px, r1) := nextInt r 0 (cols c - 1) in
      let (py, r2) := nextInt r1 0 (rows c - 1) in
      negb (Snake.occupies s (vec2i px py)) || drawsFree n' c s r2
  end.

(** What holds of snake and food while the game is not over. *)
Definition wellFormed (g : Game G) : Prop :=
  NoDup (body (snake g)) /\
  Forall (inside (cfg g)) (body (snake g)) /\
  ~ In (food g) (body (snake g)).

Record invariant (g : Game G) : Prop := {
  inv_cols : cols (cfg g) = 32;
  inv_rows : rows (cfg g) = 24;
  inv_start : startPos g = vec2i 16 12;
  inv_interval : In (moveInterval (cfg g)) intervals;
  inv_dir : In (dir (snake g)) directions;
  inv_body : body (snake g) <> [];
  inv_score : 0 <= score g;
  inv_alive : gameOver g = false -> wellFormed g
}.

(** The states [main] can be in at the top of its loop. *)
Inductive reachable : Game G -> Prop :=
| reach_init (fuel : nat) (r0 : G) (t0 : Z) (g : Game G) :
    initGame fuel r0 t0 = Ok g -> reachable g
| reach_frame (fuel : nat) (fr : Frame) (g g' : Game G) :
    reachable g -> isOpen g = true -> frame fuel fr g = Ok g' ->
    reachable g'.

End Vocabulary.

(** * Scenarios

    Concrete runs of the game, with the scripted generator. *)

(** The state on entry to the main loop when the first food lands on
    [food0] and [script] is what the generator has left. *)
Definition startGame (food0 : Vec2i) (script : list Z) : Game (list Z) :=
  {| cfg := defaultConfig; startPos := vec2i 16 12; snake := startSnake;
     rng := script; food := food0; score := 0;
     paused := false; gameOver := false;
     moveClock := 0; acc := F32.zero; isOpen := true |}.

Definition settled (r : result (Game (list Z))) : Game (list Z) :=
  match r with
  | Ok g => g
  | _ => startGame (vec2i 0 0) []
  end.

Definition headCell (g : Game (list Z)) : Vec2i :=
  hd (vec2i 0 0) (body (snake g)).

(** *** Five meals in a row, then the key R *)

Definition fiveMeals : list Frame := frames_from 0 120000 (repeat [] 5).

Definition fiveMealsStart : Game (list Z) :=
  startGame (vec2i 17 12) [18; 12; 19; 12; 20; 12; 21; 12; 3; 3; 5; 5].

Definition pressR (t : Z) : Frame :=
  {| events := [KeyPressed Keyboard.R]; tPoll := t; tUpdate := t + 50 |}.

(** *** A stalled frame at the wall, then the key R *)

Definition toTheWall : list Frame := frames_from 0 120000 (repeat [] 15).

Definition stalled : Frame :=
  {| events := []; tPoll := 2800000; tUpdate := 2800000 |}.

Definition wallStart : Game (list Z) := startGame (vec2i 3 3) [5; 5].

Definition atWall : Game (list Z) :=
  Eval vm_compute in settled (run 3 toTheWall wallStart).

Definition crashed : Game (list Z) :=
  Eval vm_compute in settled (run 3 (toTheWall ++ [stalled]) wallStart).

(** *** One meal *)

Definition mealStart : Game (list Z) := startGame (vec2i 17 12) [3; 3].

Definition fed : Game (list Z) :=
  Eval vm_compute in settled (run 3 (frames_from 0 120000 [[]]) mealStart).

(** *** A snake of six cells closing a ring of two rows *)

Definition coiling : list Frame :=
  frames_from 0 120000
    [[]; []; [KeyPressed Keyboard.Down]; [KeyPressed Keyboard.Left]; []].

Definition coiled : Game (list Z) :=
  Eval vm_compute in
    settled (g <- run 3 coiling mealStart ;;
             pollEvents 3 720000 [KeyPressed Keyboard.Up] g).

(** *** Seventy meals along three rows

    The food is always dropped on the next cell of the route; the keys are
    pressed as the head reaches the end of a row; frames follow one another
    every 8333 microseconds. *)

Definition route : list Vec2i :=
  map (fun i => vec2i (17 + Z.of_nat i) 12) (seq 0 15) ++
  map (fun i => vec2i (31 - Z.of_nat i) 13) (seq 0 32) ++
  map (fun i => vec2i (Z.of_nat i) 14) (seq 0 32).

Definition routeStart : Game (list Z) :=
  startGame (vec2i 17 12) (flat_map (fun p => [x p; y p]) (tl route)).

Definition helm (g : Game (list Z)) : list Event :=
  let h := headCell g in
  if Vec2i_eqb h (vec2i 31 12) then [KeyPressed Keyboard.Down]
  else if Vec2i_eqb h (vec2i 31 13) then [KeyPressed Keyboard.Left]
  else if Vec2i_eqb h (vec2i 0 13) then [KeyPressed Keyboard.S]
  else if Vec2i_eqb h (vec2i 0 14) then [KeyPressed Keyboard.D]
  else [].

Fixpoint autopilot (n : nat) (t : Z) (g : Game (list Z)) : list Frame :=
  match n with
  | O => []
  | S n' =>
      let fr := {| events := helm g; tPoll := t + 8333; tUpdate := t + 8333 |} in
      match frame 3 fr g with
      | Ok g' => fr :: autopilot n' (t + 8333) g'
      | _ => []
      end
  end.

Definition slow : Game (list Z) :=
  Eval vm_compute in settled (run 3 (autopilot 620 0 routeStart) routeStart).

(** Four of the five meals: the score is 40 and the food lies ahead. *)
Definition beforeFifth : Game (list Z) :=
  Eval vm_compute in
    settled (run 3 (frames_from 0 120000 (repeat [] 4)) fiveMealsStart).

(** * Further vocabulary *)

(** Each cell is the next one moved by one of the four directions. *)
Fixpoint chained (l : list Vec2i) : Prop :=
  match l with
  | a :: (b :: _) as t =>
      (exists d, In d directions /\ a = Vec2i_add b d) /\ chained t
  | _ => True
  end.

(** On the grid or one cell off it. *)
Definition nearGrid (c : GameConfig) (p : Vec2i) : Prop :=
  -1 <= x p <= cols c /\ -1 <= y p <= rows c.

(** A frame that brings neither the key R nor the key P. *)
Definition no_pause_no_restart (fr : Frame) : Prop :=
  ~ In (KeyPressed Keyboard.R) (events fr) /\
  ~ In (KeyPressed Keyboard.P) (events fr).

Section Layout.

Context {G : Type} {RS : RandomSource G}.

(** Everything of the game but the stored direction, the pause flag, the
    clock and the window. *)
Definition sameBoard (g g' : Game G) : Prop :=
  body (snake g') = body (snake g) /\
  growNext (snake g') = growNext (snake g) /\
  score g' = score g /\ food g' = food g /\ rng g' = rng g /\
  cfg g' = cfg g /\ acc g' = acc g /\ gameOver g' = gameOver g.

Record layout (g : Game G) : Prop := {
  lay_food : inside (cfg g) (food g);
  lay_tail : Forall (inside (cfg g)) (tl (body (snake g)));
  lay_near : Forall (nearGrid (cfg g)) (body (snake g));
  lay_chain : chained (body (snake g));
  lay_length : (5 <= length (body (snake g)))%nat;
  lay_score :
    score g = 10 * (Z.of_nat (length (body (snake g)))
                    + (if growNext (snake g) then 1 else 0) - 5)
}.

End Layout.

(** *** The keys Up and Left after one step to the right *)

Definition reversed : Game (list Z) :=
  Eval vm_compute in
    settled (g <- run 3 (frames_from 0 120000 [[]]) wallStart ;;
             pollEvents 3 240000
               [KeyPressed Keyboard.Up; KeyPressed Keyboard.Left] g).

(** *** A grid of two cells under a snake of two cells *)

Definition crowded : Game (list Z) :=
  {| cfg := {| cellSize := 20; cols := 2; rows := 1;
               moveInterval := F32.f0_12 |};
     startPos := vec2i 1 0; snake := Snake.make (vec2i 1 0) 2;
     rng := [1; 0; 0; 0]; food := vec2i 0 0; score := 0;
     paused := false; gameOver := false;
     moveClock := 0; acc := F32.zero; isOpen := true |}.

(** *** The session paused after the first meal *)

Definition fedPaused : Game (list Z) :=
  Eval vm_compute in
    settled (pollEvents 3 130000 [KeyPressed Keyboard.P] fed).

(** An event that asks for the window to be closed. *)
Definition closing (ev : Event) : Prop :=
  ev = Closed \/ ev = KeyPressed Keyboard.Escape.

(** The range of a 32-bit [int]. *)
Definition int32 (z : Z) : Prop := -2147483648 <= z <= 2147483647.

Section Draws.

Context {G : Type} {RS : RandomSource G}.

(** The cell named by round [k] of the draws that start at generator [r],
    with the generator as that round leaves it. *)
Fixpoint nthDraw (k : nat) (c : GameConfig) (r : G) : Vec2i * G :=
  let (px, r1) := nextInt r 0 (cols c - 1) in
  let (py, r2) := nextInt r1 0 (rows c - 1) in
  match k with
  | O => (vec2i px py, r2)
  | S k' => nthDraw k' c r2
  end.

End Draws.

(** Every cell of the grid. *)
Definition cells (c : GameConfig) : list Vec2i :=
  flat_map (fun i => map (fun j => vec2i (Z.of_nat i) (Z.of_nat j))
                         (seq 0 (Z.to_nat (rows c))))
           (seq 0 (Z.to_nat (cols c))).

(** *** Two meals on consecutive steps *)

Definition twoMealsStart : Game (list Z) :=
  startGame (vec2i 17 12) [18; 12; 3; 3].

Definition fedOnce : Game (list Z) :=
  Eval vm_compute in
    settled (run 3 (frames_from 0 120000 [[]]) twoMealsStart).

(** *** A game that fills the grid

    The route leads through every cell the snake does not start on, and
    ends on the cell its tail leaves at the first step; the food always
    drops on the next cell of the route, and the key that turns the head
    towards that cell is pressed in every frame. *)

Definition fillRoute : list Vec2i :=
  map (fun i => vec2i (17 + Z.of_nat i) 12) (seq 0 15) ++
  flat_map (fun k => map (fun i => vec2i (if Nat.even k then 31 - Z.of_nat i
                                          else 1 + Z.of_nat i)
                                         (13 + Z.of_nat k)) (seq 0 31))
           (seq 0 11) ++
  map (fun i => vec2i 0 (23 - Z.of_nat i)) (seq 0 24) ++
  flat_map (fun k => map (fun i => vec2i (if Nat.even k then 1 + Z.of_nat i
                                          else 31 - Z.of_nat i)
                                         (Z.of_nat k)) (seq 0 31))
           (seq 0 12) ++
  map (fun i => vec2i (1 + Z.of_nat i) 12) (seq 0 12).

Definition fillStart : Game (list Z) :=
  startGame (vec2i 17 12) (flat_map (fun p => [x p; y p]) (tl fillRoute)).

Fixpoint nextOnRoute (h : Vec2i) (route : list Vec2i) : option Vec2i :=
  match route with
  | a :: (b :: _) as t => if Vec2i_eqb a h then Some b else nextOnRoute h t
  | _ => None
  end.

Definition keyToward (h n : Vec2i) : list Event :=
  if x n <? x h then [KeyPressed Keyboard.Left]
  else if x h <? x n then [KeyPressed Keyboard.Right]
  else if y n <? y h then [KeyPressed Keyboard.Up]
  else if y h <? y n then [KeyPressed Keyboard.Down]
  else [].

Definition helmAlong (route : list Vec2i) (g : Game (list Z)) : list Event :=
  match nextOnRoute (headCell g) route with
  | Some n => keyToward (headCell g) n
  | None => []
  end.

(** Frames every 8333 microseconds until the head is on [goal]. *)
Fixpoint pilotAlong (route : list Vec2i) (goal : Vec2i) (n : nat) (t : Z)
    (g : Game (list Z)) : list Frame :=
  match n with
  | O => []
  | S n' =>
      if Vec2i_eqb (headCell g) goal then []
      else
        let fr := {| events := helmAlong route g;
                     tPoll := t + 8333; tUpdate := t + 8333 |} in
        match frame 3 fr g with
        | Ok g' => fr :: pilotAlong route goal n' (t + 8333) g'
        | _ => []
        end
  end.

(** The head one step from the last free cell, where the food lies. *)
Definition brim : Game (list Z) :=
  Eval vm_compute in
    settled (run 3 (pilotAlong fillRoute (vec2i 11 12) 5000 0 fillStart)
                 fillStart).

Definition brimMoved : Snake :=
  Eval vm_compute in
    match Snake.move (snake brim) with
    | Ok s => s
    | _ => startSnake
    end.

(** * Properties *)

Lemma Ok_inj {A : Type} (a b : A) : Ok a = Ok b -> a = b.
Proof. intros H; congruence. Qed.

(** ** Vectors and lists *)

Lemma Vec2i_eqb_eq (a b : Vec2i) : Vec2i_eqb a b = true <-> a = b.
Proof.
  destruct a as [ax ay], b as [bx by']; unfold Vec2i_eqb; simpl.
  rewrite andb_true_iff, !Z.eqb_eq. split.
  - intros [-> ->]; reflexivity.
  - intros H; injection H; auto.
Qed.

Lemma Vec2i_eqb_neq (a b : Vec2i) : Vec2i_eqb a b = false <-> a <> b.
Proof.
  rewrite <- Vec2i_eqb_eq. destruct (Vec2i_eqb a b); split; congruence.
Qed.

Lemma Vec2i_eqb_refl (a : Vec2i) : Vec2i_eqb a a = true.
Proof. apply Vec2i_eqb_eq; reflexivity. Qed.

Lemma Vec2i_add_neg (a d : Vec2i) : Vec2i_add (Vec2i_add a d) (Vec2i_neg d) = a.
Proof.
  destruct a, d; unfold Vec2i_add, Vec2i_neg; simpl; f_equal; lia.
Qed.

Lemma Vec2i_neg_inj (a b : Vec2i) : Vec2i_neg a = Vec2i_neg b -> a = b.
Proof.
  destruct a, b; unfold Vec2i_neg; simpl; intros H; injection H; intros.
  f_equal; lia.
Qed.

Lemma existsb_eqb_In (p : Vec2i) (l : list Vec2i) :
  existsb (fun seg => Vec2i_eqb seg p) l = true <-> In p l.
Proof.
  rewrite existsb_exists. split.
  - intros (q & Hq & E). apply Vec2i_eqb_eq in E. subst; assumption.
  - intros H. exists p. split; [assumption | apply Vec2i_eqb_refl].
Qed.

Lemma existsb_eqb_not_In (p : Vec2i) (l : list Vec2i) :
  existsb (fun seg => Vec2i_eqb seg p) l = false <-> ~ In p l.
Proof.
  rewrite <- existsb_eqb_In.
  destruct (existsb _ l); split; congruence.
Qed.

Lemma occupies_In (s : Snake) (p : Vec2i) :
  Snake.occupies s p = true <-> In p (body s).
Proof. apply existsb_eqb_In. Qed.

Lemma occupies_not_In (s : Snake) (p : Vec2i) :
  Snake.occupies s p = false <-> ~ In p (body s).
Proof. apply existsb_eqb_not_In. Qed.

Lemma removelast_cons2 {A : Type} (a b : A) (l : list A) :
  removelast (a :: b :: l) = a :: removelast (b :: l).
Proof. reflexivity. Qed.

Lemma length_removelast_cons {A : Type} (a : A) (l : list A) :
  length (removelast (a :: l)) = length l.
Proof.
  revert a; induction l as [|b l IH]; intros a; [reflexivity|].
  rewrite removelast_cons2. cbn [length]. rewrite IH. reflexivity.
Qed.

Lemma In_removelast {A : Type} (p : A) (l : list A) :
  In p (removelast l) -> In p l.
Proof.
  induction l as [|a l IH]; [auto|].
  destruct l as [|b l]; [intros []|].
  rewrite removelast_cons2. intros [->|H]; [left; reflexivity|right; auto].
Qed.

Lemma NoDup_removelast {A : Type} (l : list A) :
  NoDup l -> NoDup (removelast l).
Proof.
  induction l as [|a l IH]; [auto|].
  destruct l as [|b l]; [intros _; constructor|].
  rewrite removelast_cons2. intros H. inversion H as [|? ? Hn Hd]; subst.
  constructor; [|auto].
  intros Hin. apply Hn. apply In_removelast. assumption.
Qed.

Lemma Forall_removelast {A : Type} (Q : A -> Prop) (l : list A) :
  Forall Q l -> Forall Q (removelast l).
Proof.
  rewrite !Forall_forall. intros H p Hp. apply H, In_removelast, Hp.
Qed.

(** In a duplicate-free list the last element does not survive
    [removelast]. *)
Lemma last_not_In_removelast {A : Type} (d : A) (l : list A) :
  l <> [] -> NoDup l -> ~ In (last l d) (removelast l).
Proof.
  intros Hne Hnd Hin.
  rewrite (app_removelast_last d Hne) in Hnd.
  apply NoDup_remove_2 in Hnd. rewrite app_nil_r in Hnd. contradiction.
Qed.

Lemma nth_removelast {A : Type} (d : A) (l : list A) (i : nat) :
  (S i < length l)%nat -> nth i (removelast l) d = nth i l d.
Proof.
  revert i; induction l as [|a l IH]; intros i; [simpl; lia|].
  destruct l as [|b l]; [simpl; lia|].
  rewrite removelast_cons2. destruct i as [|i]; [reflexivity|].
  intros H. cbn [nth]. apply IH. simpl in H |- *. lia.
Qed.

Lemma last_In {A : Type} (d : A) (l : list A) : l <> [] -> In (last l d) l.
Proof.
  intros Hne. rewrite (app_removelast_last d Hne) at 2.
  apply in_or_app. right. left. reflexivity.
Qed.

(** ** The snake *)

Lemma make_body_length (start : Vec2i) (n : Z) :
  length (body (Snake.make start n)) = Z.to_nat n.
Proof. unfold Snake.make; simpl. rewrite length_map, length_seq. reflexivity. Qed.

Lemma make_NoDup (start : Vec2i) (n : Z) : NoDup (body (Snake.make start n)).
Proof.
  unfold Snake.make; simpl. apply Injective_map_NoDup.
  - intros i j H. injection H. lia.
  - apply seq_NoDup.
Qed.

Lemma make_In (start : Vec2i) (n : Z) (p : Vec2i) :
  In p (body (Snake.make start n)) ->
  y p = y start /\ x start - n < x p <= x start.
Proof.
  unfold Snake.make; simpl. rewrite in_map_iff.
  intros (i & <- & Hi). apply in_seq in Hi. simpl. lia.
Qed.

Lemma move_cons (s : Snake) (h : Vec2i) (t : list Vec2i) :
  body s = h :: t ->
  Snake.move s =
    Ok {| body := Vec2i_add h (dir s)
                  :: (if growNext s then h :: t else removelast (h :: t));
          dir := dir s; growNext := false |}.
Proof.
  intros E. unfold Snake.move, Snake.head. rewrite E. simpl bind.
  destruct (growNext s); reflexivity.
Qed.

Lemma move_after_grow (s : Snake) :
  body s <> [] ->
  exists s', Snake.move (Snake.grow s) = Ok s' /\
             length (body s') = S (length (body s)).
Proof.
  destruct (body s) as [|h t] eqn:E; [congruence|].
  intros _. eexists. split; [apply (move_cons _ h t); exact E|].
  reflexivity.
Qed.

Lemma move_defined (s : Snake) :
  body s <> [] -> exists s', Snake.move s = Ok s'.
Proof.
  destruct (body s) as [|h t] eqn:E; [congruence|].
  intros _. eexists. apply (move_cons _ _ _ E).
Qed.

(** A snake of three cells at (5,5) facing right: one [move] puts the head
    on (6,5) and drops the tail. *)
Example move_length_three :
  Snake.move (Snake.make (vec2i 5 5) 3)
  = Ok {| body := [vec2i 6 5; vec2i 5 5; vec2i 4 5];
          dir := vec2i 1 0; growNext := false |}.
Proof. reflexivity. Qed.

(** A snake of one cell may turn round: at (0,0), turned to the left, its
    head goes to (-1,0). *)
Example move_length_one :
  Snake.move (Snake.setDirection (Snake.make (vec2i 0 0) 1) (vec2i (-1) 0))
  = Ok {| body := [vec2i (-1) 0]; dir := vec2i (-1) 0; growNext := false |}.
Proof. reflexivity. Qed.

(** [front()] of an empty deque. *)
Example move_empty : Snake.move (Snake.make (vec2i 0 0) 0) = Undefined.
Proof. reflexivity. Qed.

(** ** [setDirection] *)

Lemma setDirection_rejects (s : Snake) (d : Vec2i) :
  reverses s d -> Snake.setDirection s d = s.
Proof.
  intros [Hlen ->]. unfold Snake.setDirection.
  rewrite Vec2i_eqb_refl, andb_true_r.
  destruct (1 <? Z.of_nat (length (body s))) eqn:E; [reflexivity|].
  apply Z.ltb_ge in E. lia.
Qed.

Lemma setDirection_accepts (s : Snake) (d : Vec2i) :
  ~ reverses s d ->
  Snake.setDirection s d = {| body := body s; dir := d; growNext := growNext s |}.
Proof.
  intros Hn. unfold Snake.setDirection.
  destruct (1 <? Z.of_nat (length (body s))) eqn:E1; [|reflexivity].
  destruct (Vec2i_eqb d (Vec2i_neg (dir s))) eqn:E2; [|reflexivity].
  exfalso. apply Hn. split.
  - apply Z.ltb_lt in E1. lia.
  - apply Vec2i_eqb_eq, E2.
Qed.

Lemma setDirection_body (s : Snake) (d : Vec2i) :
  body (Snake.setDirection s d) = body s.
Proof.
  unfold Snake.setDirection.
  destruct (_ && _); reflexivity.
Qed.

Lemma setDirection_growNext (s : Snake) (d : Vec2i) :
  growNext (Snake.setDirection s d) = growNext s.
Proof.
  unfold Snake.setDirection.
  destruct (_ && _); reflexivity.
Qed.

Lemma setDirection_dir (s : Snake) (d : Vec2i) :
  dir (Snake.setDirection s d) = d \/ dir (Snake.setDirection s d) = dir s.
Proof.
  unfold Snake.setDirection.
  destruct (_ && _); simpl; auto.
Qed.

Lemma setDirection_calls_body (ds : list Vec2i) (s : Snake) :
  body (fold_left Snake.setDirection ds s) = body s /\
  growNext (fold_left Snake.setDirection ds s) = growNext s.
Proof.
  revert s; induction ds as [|d ds IH]; intros s; simpl; [auto|].
  destruct (IH (Snake.setDirection s d)) as [-> ->].
  rewrite setDirection_body, setDirection_growNext. auto.
Qed.

Lemma setDirection_calls_rejected (ds : list Vec2i) (s : Snake) :
  (forall e, In e ds -> reverses s e) ->
  fold_left Snake.setDirection ds s = s.
Proof.
  induction ds as [|d ds IH]; intros H; simpl; [reflexivity|].
  rewrite setDirection_rejects by (apply H; left; reflexivity).
  apply IH. intros e He. apply H. right; assumption.
Qed.

(** C8: [setDirection d] leaves the snake as it is when [d] is the exact
    reverse of the stored direction and the body is longer than one cell;
    any other call stores [d] and touches nothing else, and the next [move]
    advances the head by [d]; of several calls made before a step the last
    one that was accepted decides, whatever was stored by the earlier
    ones. *)
Theorem setDirection_overwrites (s : Snake) (d : Vec2i) :
  (reverses s d -> Snake.setDirection s d = s) /\
  (~ reverses s d ->
     Snake.setDirection s d
       = {| body := body s; dir := d; growNext := growNext s |} /\
     forall h t, body s = h :: t ->
       exists s', Snake.move (Snake.setDirection s d) = Ok s' /\
                  Snake.head s' = Ok (Vec2i_add h d)) /\
  (forall pre post,
     ~ reverses (fold_left Snake.setDirection pre s) d ->
     (forall e, In e post ->
        reverses (Snake.setDirection (fold_left Snake.setDirection pre s) d) e) ->
     fold_left Snake.setDirection (pre ++ d :: post) s
       = {| body := body s; dir := d; growNext := growNext s |}).
Proof.
  split; [apply setDirection_rejects|]. split.
  - intros Hn. split; [apply setDirection_accepts, Hn|].
    intros h t E. rewrite (setDirection_accepts _ _ Hn).
    eexists. split; [apply (move_cons _ h t); exact E|].
    reflexivity.
  - intros pre post Hacc Hrej.
    rewrite fold_left_app. simpl fold_left.
    rewrite setDirection_calls_rejected by exact Hrej.
    rewrite (setDirection_accepts _ _ Hacc).
    destruct (setDirection_calls_body pre s) as [-> ->]. reflexivity.
Qed.

Lemma setDirection_overwrites_witness :
  Snake.setDirection startSnake (vec2i (-1) 0) = startSnake /\
  dir (Snake.setDirection startSnake (vec2i 0 (-1))) = vec2i 0 (-1) /\
  dir (fold_left Snake.setDirection
         [vec2i 0 1; vec2i (-1) 0; vec2i 1 0] startSnake) = vec2i (-1) 0.
Proof.
  split; [|split].
  - apply (setDirection_overwrites startSnake (vec2i (-1) 0)).
    split; [simpl; lia | reflexivity].
  - destruct (setDirection_overwrites startSnake (vec2i 0 (-1)))
      as (_ & H & _).
    destruct H as [-> _]; [|reflexivity].
    intros [_ H]; discriminate H.
  - destruct (setDirection_overwrites startSnake (vec2i (-1) 0))
      as (_ & _ & H).
    specialize (H [vec2i 0 1] [vec2i 1 0]). cbn [app] in H.
    rewrite H; [reflexivity| |].
    + intros [_ E]; discriminate E.
    + intros e [<-|[]]. split; [simpl; lia | reflexivity].
Defined.

(** C9: after a step along [dir s], a first call with any direction [p] off
    that axis (Up, say, after a step to the Right) followed by a call with
    the reverse of [dir s] (Left) passes both checks, each being made
    against the direction stored at that moment; the stored direction is
    then the reverse of the one the step applied, the next [move] puts the
    head on the second segment, and a body of three cells or more reports a
    collision with itself. *)
Theorem two_turns_reverse (s s1 : Snake) (p : Vec2i) :
  Snake.move s = Ok s1 ->
  (1 < length (body s1))%nat ->
  p <> dir s -> p <> Vec2i_neg (dir s) ->
  let s2 := Snake.setDirection (Snake.setDirection s1 p) (Vec2i_neg (dir s)) in
  dir s2 = Vec2i_neg (dir s) /\
  exists s3,
    Snake.move s2 = Ok s3 /\
    Snake.head s3 = Ok (nth 1 (body s1) (vec2i 0 0)) /\
    ((2 < length (body s1))%nat -> Snake.collidesWithSelf s3 = Ok true).
Proof.
  intros Hmove Hlen Hp1 Hp2.
  destruct (body s) as [|h t] eqn:Eb.
  { unfold Snake.move, Snake.head in Hmove. rewrite Eb in Hmove. discriminate. }
  assert (Hs1 : exists r, s1 = {| body := Vec2i_add h (dir s) :: h :: r;
                                  dir := dir s; growNext := false |}).
  { rewrite (move_cons _ _ _ Eb) in Hmove. injection Hmove as <-.
    destruct (growNext s); [eexists; reflexivity|].
    destruct t as [|b t]; [simpl in Hlen; lia|].
    eexists; reflexivity. }
  destruct Hs1 as [r ->]. clear Hmove.
  set (s1 := {| body := Vec2i_add h (dir s) :: h :: r;
                dir := dir s; growNext := false |}).
  assert (H1 : Snake.setDirection s1 p
               = {| body := body s1; dir := p; growNext := growNext s1 |}).
  { apply setDirection_accepts. intros [_ E]. exact (Hp2 E). }
  intros s2. subst s2. rewrite H1.
  rewrite setDirection_accepts.
  2:{ intros [_ E]. simpl in E. apply Vec2i_neg_inj in E. congruence. }
  simpl. split; [reflexivity|].
  eexists. split; [apply (move_cons _ (Vec2i_add h (dir s)) (h :: r)); reflexivity|].
  simpl. rewrite Vec2i_add_neg. split; [reflexivity|].
  intros Hlen3. unfold Snake.collidesWithSelf, Snake.head. simpl.
  destruct r as [|c r]; [simpl in Hlen3; lia|].
  simpl. rewrite Vec2i_eqb_refl, orb_true_r. reflexivity.
Qed.

Lemma two_turns_reverse_witness :
  exists s1 s3,
    Snake.move startSnake = Ok s1 /\
    dir (Snake.setDirection (Snake.setDirection s1 (vec2i 0 (-1))) (vec2i (-1) 0))
      = vec2i (-1) 0 /\
    Snake.move (Snake.setDirection (Snake.setDirection s1 (vec2i 0 (-1)))
                                   (vec2i (-1) 0)) = Ok s3 /\
    Snake.head s3 = Ok (vec2i 16 12) /\
    Snake.collidesWithSelf s3 = Ok true.
Proof.
  destruct (move_defined startSnake) as [s1 E1]; [discriminate|].
  assert (Es1 : s1 = {| body := [vec2i 17 12; vec2i 16 12; vec2i 15 12;
                                 vec2i 14 12; vec2i 13 12];
                        dir := vec2i 1 0; growNext := false |}).
  { vm_compute in E1. injection E1 as <-. reflexivity. }
  destruct (two_turns_reverse startSnake s1 (vec2i 0 (-1)) E1)
    as (Hd & s3 & Hm & Hh & Hc).
  - subst s1; simpl; lia.
  - discriminate.
  - discriminate.
  - exists s1, s3. subst s1.
    split; [reflexivity|]. split; [exact Hd|]. split; [exact Hm|].
    split; [exact Hh|]. apply Hc. simpl; lia.
Defined.

(** ** The food placer *)

Section Properties.

Context {G : Type} {RS : RandomSource G}.

Implicit Types g : Game G.

Lemma outside_false (c : GameConfig) (p : Vec2i) :
  outside c p = false <-> inside c p.
Proof.
  unfold outside, inside.
  rewrite !orb_false_iff, !Z.ltb_ge, !Z.geb_leb, !Z.leb_gt. lia.
Qed.

Lemma outside_true (c : GameConfig) (p : Vec2i) :
  outside c p = true <->
  x p < 0 \/ x p >= cols c \/ y p < 0 \/ y p >= rows c.
Proof.
  unfold outside.
  rewrite !orb_true_iff, !Z.ltb_lt, !Z.geb_leb, !Z.leb_le. lia.
Qed.

Lemma placeFood_inv (fuel : nat) g g' :
  placeFood fuel g = Ok g' ->
  exists p r,
    g' = set_food p (set_rng r g) /\
    Snake.occupies (snake g) p = false /\
    (0 < cols (cfg g) -> 0 < rows (cfg g) -> inside (cfg g) p).
Proof.
  revert g; induction fuel as [|fuel IH]; intros g; simpl; [discriminate|].
  destruct (nextInt (rng g) 0 (cols (cfg g) - 1)) as [px r1] eqn:E1.
  destruct (nextInt r1 0 (rows (cfg g) - 1)) as [py r2] eqn:E2.
  destruct (Snake.occupies (snake g) (vec2i px py)) eqn:Eo; simpl.
  - intros H. apply IH in H. destruct H as (p & r & -> & Hocc & Hin).
    exists p, r. auto.
  - intros H. injection H as <-. exists (vec2i px py), r2.
    split; [reflexivity|]. split; [exact Eo|].
    intros Hc Hr. unfold inside; simpl.
    pose proof (nextInt_range (rng g) 0 (cols (cfg g) - 1)) as R1.
    pose proof (nextInt_range r1 0 (rows (cfg g) - 1)) as R2.
    rewrite E1 in R1. rewrite E2 in R2. simpl in R1, R2. lia.
Qed.

Lemma placeFood_terminates (fuel : nat) g :
  drawsFree fuel (cfg g) (snake g) (rng g) = true ->
  exists g', placeFood fuel g = Ok g'.
Proof.
  revert g; induction fuel as [|fuel IH]; intros g; simpl; [discriminate|].
  destruct (nextInt (rng g) 0 (cols (cfg g) - 1)) as [px r1].
  destruct (nextInt r1 0 (rows (cfg g) - 1)) as [py r2].
  destruct (Snake.occupies (snake g) (vec2i px py)); simpl.
  - intros H. apply (IH (set_rng r2 g)). exact H.
  - intros _. eexists; reflexivity.
Qed.

(** ** One pass of the move loop *)

Lemma iteration_cons (fuel : nat) g (h : Vec2i) (t : list Vec2i) :
  body (snake g) = h :: t ->
  let nh := Vec2i_add h (dir (snake g)) in
  let s' := {| body := nh :: (if growNext (snake g) then h :: t
                              else removelast (h :: t));
               dir := dir (snake g); growNext := false |} in
  let g1 := set_snake s' (set_acc (F32.sub (acc g) (moveInterval (cfg g))) g) in
  iteration fuel g =
    if outside (cfg g) nh then Ok (Break, set_gameOver true g1)
    else if existsb (fun seg => Vec2i_eqb seg nh) (tl (body s'))
    then Ok (Break, set_gameOver true g1)
    else if Vec2i_eqb nh (food g)
    then g2 <- placeFood fuel
                 (set_score (score g + 10) (set_snake (Snake.grow s') g1)) ;;
         Ok (Continue, speedUp g2)
    else Ok (Continue, g1).
Proof.
  intros E nh s' g1. unfold iteration.
  cbn [snake set_acc]. rewrite (move_cons _ _ _ E). cbn [bind].
  reflexivity.
Qed.

(** What a successful [move] followed by [head] says about the body. *)
Lemma move_head_inv (s s' : Snake) (nh : Vec2i) :
  Snake.move s = Ok s' -> Snake.head s' = Ok nh ->
  exists h t,
    body s = h :: t /\ nh = Vec2i_add h (dir s) /\
    s' = {| body := nh :: (if growNext s then h :: t else removelast (h :: t));
            dir := dir s; growNext := false |}.
Proof.
  intros Hm Hh. destruct (body s) as [|h t] eqn:E.
  { unfold Snake.move, Snake.head in Hm. rewrite E in Hm. discriminate. }
  rewrite (move_cons _ _ _ E) in Hm. injection Hm as <-.
  unfold Snake.head in Hh. cbn [body] in Hh. injection Hh as <-.
  exists h, t. auto.
Qed.

Lemma drawsFree_body (n : nat) (c : GameConfig) (s1 s2 : Snake) (r : G) :
  body s1 = body s2 -> drawsFree n c s1 r = drawsFree n c s2 r.
Proof.
  intros E. revert r; induction n as [|n IH]; intros r; simpl; [reflexivity|].
  destruct (nextInt r 0 (cols c - 1)) as [px r1].
  destruct (nextInt r1 0 (rows c - 1)) as [py r2].
  unfold Snake.occupies. rewrite E, IH. reflexivity.
Qed.

Lemma speedUp_fields g :
  snake (speedUp g) = snake g /\ food (speedUp g) = food g /\
  score (speedUp g) = score g /\ gameOver (speedUp g) = gameOver g /\
  paused (speedUp g) = paused g /\ rng (speedUp g) = rng g /\
  acc (speedUp g) = acc g /\ moveClock (speedUp g) = moveClock g /\
  isOpen (speedUp g) = isOpen g /\ startPos (speedUp g) = startPos g /\
  cols (cfg (speedUp g)) = cols (cfg g) /\
  rows (cfg (speedUp g)) = rows (cfg g).
Proof.
  unfold speedUp. destruct (_ && _); cbn; repeat split; reflexivity.
Qed.

(** C4 (amended): a pass of the loop that starts with the growth flag unset
    and whose new head is on the grid, on no segment of the moved body and
    not on the food leaves the length as it was: the new head is the old
    head plus the direction, every further segment holds the former cell of
    its predecessor, and the old tail cell is left, unless the new head
    itself has just entered it. *)
Theorem plain_step_shifts (fuel : nat) g (s' : Snake) (nh : Vec2i) :
  Snake.move (snake g) = Ok s' ->
  Snake.head s' = Ok nh ->
  growNext (snake g) = false ->
  outside (cfg g) nh = false ->
  Snake.collidesWithSelf s' = Ok false ->
  Vec2i_eqb nh (food g) = false ->
  exists h t g',
    body (snake g) = h :: t /\
    nh = Vec2i_add h (dir (snake g)) /\
    iteration fuel g = Ok (Continue, g') /\
    snake g' = s' /\
    length (body (snake g')) = length (body (snake g)) /\
    (forall i d, (S i < length (body (snake g)))%nat ->
       nth (S i) (body (snake g')) d = nth i (body (snake g)) d) /\
    (NoDup (body (snake g)) -> nh <> last (body (snake g)) nh ->
       ~ In (last (body (snake g)) nh) (body (snake g'))) /\
    score g' = score g /\ food g' = food g /\ gameOver g' = gameOver g.
Proof.
  intros Hm Hh Hg Hout Hself Hfood.
  destruct (move_head_inv _ _ _ Hm Hh) as (h & t & E & -> & ->).
  rewrite Hg in *.
  unfold Snake.collidesWithSelf, Snake.head in Hself. cbn [body bind tl] in Hself.
  apply Ok_inj in Hself.
  exists h, t. eexists. split; [exact E|]. split; [reflexivity|].
  rewrite (iteration_cons fuel g h t E). cbv zeta. rewrite Hg, Hout.
  cbn [body tl]. rewrite Hself, Hfood.
  split; [reflexivity|]. cbn [snake set_snake body score food gameOver set_acc].
  rewrite E. split; [reflexivity|].
  split; [cbn [length]; rewrite length_removelast_cons; reflexivity|].
  split; [intros i d Hi; apply (nth_removelast d (h :: t) i Hi)|].
  split; [|auto].
  intros Hnd Hne [Hin|Hin]; [congruence|].
  revert Hin. apply last_not_In_removelast; [discriminate|exact Hnd].
Qed.

(** The state a meal leaves behind. *)
Lemma meal_pass (fuel : nat) g (s' : Snake) (nh : Vec2i) :
  Snake.move (snake g) = Ok s' ->
  Snake.head s' = Ok nh ->
  outside (cfg g) nh = false ->
  Snake.collidesWithSelf s' = Ok false ->
  nh = food g ->
  drawsFree fuel (cfg g) s' (rng g) = true ->
  exists p r,
    iteration fuel g =
      Ok (Continue,
          speedUp (set_food p (set_rng r
            (set_score (score g + 10) (set_snake (Snake.grow s')
              (set_acc (F32.sub (acc g) (moveInterval (cfg g))) g)))))) /\
    Snake.occupies s' p = false.
Proof.
  intros Hm Hh Hout Hself Hfood Hfree.
  destruct (move_head_inv _ _ _ Hm Hh) as (h & t & E & Enh & Es').
  unfold Snake.collidesWithSelf in Hself. rewrite Hh in Hself.
  cbn [bind] in Hself. apply Ok_inj in Hself.
  rewrite (iteration_cons fuel g h t E). cbv zeta.
  rewrite <- Enh, <- Es', Hout, Hself, Hfood, Vec2i_eqb_refl.
  set (gm := set_score _ _).
  destruct (placeFood_terminates fuel gm) as [g2 Hp].
  { subst gm. cbn [cfg snake rng set_score set_snake set_acc].
    rewrite (drawsFree_body _ _ (Snake.grow s') s') by reflexivity.
    exact Hfree. }
  rewrite Hp. cbn [bind].
  destruct (placeFood_inv _ _ _ Hp) as (p & r & -> & Hocc & _).
  exists p, r. split; [reflexivity|exact Hocc].
Qed.

(** C5 (amended): a pass whose new head is on the grid, on no segment and on
    the food, and after which the generator names a free cell within [fuel]
    rounds, adds exactly 10 to the score and sets the growth flag; the body
    it leaves is the one [move] produced, so the meal does not lengthen it
    on this pass (with the flag unset on entry the length is the old one;
    with the flag set, the cell added is the one owed to the meal before),
    and the [move] of the following pass lengthens it by exactly one; the
    food goes to a cell the new body does not occupy, hence away from where
    it was. *)
Theorem meal_grows_next_step (fuel : nat) g (s' : Snake) (nh : Vec2i) :
  Snake.move (snake g) = Ok s' ->
  Snake.head s' = Ok nh ->
  outside (cfg g) nh = false ->
  Snake.collidesWithSelf s' = Ok false ->
  nh = food g ->
  drawsFree fuel (cfg g) s' (rng g) = true ->
  exists g',
    iteration fuel g = Ok (Continue, g') /\
    score g' = score g + 10 /\
    body (snake g') = body s' /\
    (growNext (snake g) = false ->
       length (body (snake g')) = length (body (snake g))) /\
    growNext (snake g') = true /\
    (exists s'', Snake.move (snake g') = Ok s'' /\
                 length (body s'') = S (length (body (snake g')))) /\
    Snake.occupies (snake g') (food g') = false /\
    food g' <> food g.
Proof.
  intros Hm Hh Hout Hself Hfood Hfree.
  destruct (meal_pass fuel g s' nh Hm Hh Hout Hself Hfood Hfree)
    as (p & r & Hit & Hocc).
  destruct (move_head_inv _ _ _ Hm Hh) as (h & t & E & Enh & Es').
  eexists. split; [exact Hit|].
  match goal with
  | |- context [speedUp ?gm] =>
      destruct (speedUp_fields gm) as (-> & -> & -> & _)
  end.
  cbn [snake score food set_food set_rng set_score set_snake].
  split; [reflexivity|]. split; [reflexivity|].
  split.
  { intros Hg. rewrite Es', Hg, E.
    change (S (length (removelast (h :: t))) = length (h :: t)).
    rewrite length_removelast_cons. reflexivity. }
  split; [reflexivity|].
  split.
  { destruct (move_after_grow s') as (s'' & Hm' & Hl).
    - rewrite Es'. discriminate.
    - exists s''. split; [exact Hm' | exact Hl]. }
  split; [exact Hocc|].
  intros Ep. apply occupies_not_In in Hocc. apply Hocc.
  rewrite Ep, <- Hfood, Es'. left; reflexivity.
Qed.

(** C10: with the growth flag unset, a pass that sends the head to the cell
    of the current tail ends without a collision and the session stays
    Running: [move] has already taken the tail off that cell when
    [collidesWithSelf] looks.  The body is duplicate-free and on the grid
    and the food is not under the snake, as in every state the game
    reaches while it is not over. *)
Theorem head_onto_tail_is_safe (fuel : nat) g (h : Vec2i) (t : list Vec2i) :
  running g ->
  body (snake g) = h :: t ->
  growNext (snake g) = false ->
  NoDup (h :: t) ->
  Forall (inside (cfg g)) (h :: t) ->
  ~ In (food g) (h :: t) ->
  Vec2i_add h (dir (snake g)) = last (h :: t) h ->
  exists g',
    iteration fuel g = Ok (Continue, g') /\
    running g' /\
    body (snake g') = last (h :: t) h :: removelast (h :: t) /\
    Snake.collidesWithSelf (snake g') = Ok false.
Proof.
  intros Hrun E Hg Hnd Hin Hfood Htail.
  assert (Hlast : In (last (h :: t) h) (h :: t)) by (apply last_In; discriminate).
  assert (Hfree : existsb (fun seg => Vec2i_eqb seg (last (h :: t) h))
                          (removelast (h :: t)) = false).
  { apply existsb_eqb_not_In, last_not_In_removelast; [discriminate|exact Hnd]. }
  rewrite (iteration_cons fuel g h t E). cbv zeta. rewrite Hg, Htail.
  replace (outside (cfg g) (last (h :: t) h)) with false.
  2:{ symmetry. apply outside_false.
      rewrite Forall_forall in Hin. apply Hin, Hlast. }
  cbn [body tl]. rewrite Hfree.
  replace (Vec2i_eqb (last (h :: t) h) (food g)) with false.
  2:{ symmetry. apply Vec2i_eqb_neq. intros Ef. apply Hfood.
      rewrite <- Ef. exact Hlast. }
  eexists. split; [reflexivity|].
  split; [exact Hrun|]. split; [reflexivity|].
  unfold Snake.collidesWithSelf, Snake.head.
  cbn [snake set_snake body bind tl]. rewrite Hfree. reflexivity.
Qed.

(** ** Game over *)

Lemma Keyboard_eqb_eq (a b : Keyboard.Key) : Keyboard.eqb a b = true <-> a = b.
Proof. destruct a, b; simpl; split; congruence. Qed.

Lemma handleEvent_gameOver (fuel : nat) (now : Z) (ev : Event) g :
  gameOver g = true -> ev <> KeyPressed Keyboard.R ->
  exists g', handleEvent fuel now ev g = Ok g' /\
             snake g' = snake g /\ gameOver g' = true.
Proof.
  intros Hover Hev. destruct ev as [|code|]; cbn [handleEvent].
  - eexists; split; [reflexivity|]. auto.
  - destruct (Keyboard.eqb code Keyboard.R) eqn:ER.
    { apply Keyboard_eqb_eq in ER. congruence. }
    cbn [bind].
    destruct (Keyboard.eqb code Keyboard.Escape),
             (Keyboard.eqb code Keyboard.P);
      cbn [gameOver set_paused set_isOpen]; rewrite Hover; cbn [negb];
      eexists; (split; [reflexivity|]); auto.
  - eexists; split; [reflexivity|]. auto.
Qed.

Lemma pollEvents_gameOver (fuel : nat) (now : Z) (evs : list Event) g :
  gameOver g = true -> ~ In (KeyPressed Keyboard.R) evs ->
  exists g', pollEvents fuel now evs g = Ok g' /\
             snake g' = snake g /\ gameOver g' = true.
Proof.
  revert g; induction evs as [|ev evs IH]; intros g Hover Hno; cbn [pollEvents].
  - eexists; split; [reflexivity|]. auto.
  - destruct (isOpen g); [|eexists; split; [reflexivity|]; auto].
    destruct (handleEvent_gameOver fuel now ev g Hover) as (g1 & -> & Hs & Ho).
    { intros ->. apply Hno. left; reflexivity. }
    cbn [bind]. destruct (IH g1 Ho) as (g2 & -> & Hs2 & Ho2).
    { intros H. apply Hno. right; exact H. }
    exists g2. split; [reflexivity|]. split; [congruence|exact Ho2].
Qed.

Lemma update_idle (fuel : nat) (now : Z) g :
  paused g = true \/ gameOver g = true ->
  update fuel now g = Ok (set_moveClock now g).
Proof.
  intros H. unfold update.
  destruct H as [-> | ->]; [|rewrite andb_false_r]; reflexivity.
Qed.

Lemma frame_gameOver (fuel : nat) (fr : Frame) g :
  gameOver g = true -> no_restart fr ->
  exists g', frame fuel fr g = Ok g' /\
             snake g' = snake g /\ gameOver g' = true.
Proof.
  intros Hover Hno. unfold frame.
  destruct (pollEvents_gameOver fuel (tPoll fr) (events fr) g Hover Hno)
    as (g1 & -> & Hs & Ho).
  cbn [bind]. rewrite update_idle by (right; exact Ho).
  eexists; split; [reflexivity|]. auto.
Qed.

Lemma run_gameOver (fuel : nat) (frs : list Frame) g :
  gameOver g = true -> Forall no_restart frs ->
  exists g', run fuel frs g = Ok g' /\
             snake g' = snake g /\ gameOver g' = true.
Proof.
  revert g; induction frs as [|fr frs IH]; intros g Hover Hno; cbn [run].
  - eexists; split; [reflexivity|]. auto.
  - destruct (isOpen g); [|eexists; split; [reflexivity|]; auto].
    inversion Hno as [|? ? Hfr Hfrs]; subst.
    destruct (frame_gameOver fuel fr g Hover Hfr) as (g1 & -> & Hs & Ho).
    cbn [bind]. destruct (IH g1 Ho Hfrs) as (g2 & -> & Hs2 & Ho2).
    exists g2. split; [reflexivity|]. split; [congruence|exact Ho2].
Qed.

(** C6: a pass whose new head has [x < 0], [x >= cols], [y < 0] or
    [y >= rows] sets [gameOver] and leaves the loop at once; and from a
    state with [gameOver] set, frames that bring no key R (the restart
    builds a new snake and clears the flag) all run, the snake staying as
    it is and the flag staying set: no [move], no [setDirection]. *)
Theorem wall_ends_game :
  (forall (fuel : nat) g (s' : Snake) (nh : Vec2i),
     Snake.move (snake g) = Ok s' ->
     Snake.head s' = Ok nh ->
     x nh < 0 \/ x nh >= cols (cfg g) \/ y nh < 0 \/ y nh >= rows (cfg g) ->
     exists g',
       iteration fuel g = Ok (Break, g') /\
       gameOver g' = true /\ snake g' = s' /\
       (F32.geb (acc g) (moveInterval (cfg g)) = true ->
        moveLoop (S fuel) g = Ok g')) /\
  (forall (fuel : nat) (frs : list Frame) g,
     gameOver g = true ->
     Forall no_restart frs ->
     exists g',
       run fuel frs g = Ok g' /\ snake g' = snake g /\ gameOver g' = true).
Proof.
  split; [|apply run_gameOver].
  intros fuel g s' nh Hm Hh Hout.
  destruct (move_head_inv _ _ _ Hm Hh) as (h & t & E & Enh & Es').
  pose proof (iteration_cons fuel g h t E) as Hit. cbv zeta in Hit.
  rewrite <- Enh, <- Es' in Hit.
  apply outside_true in Hout. rewrite Hout in Hit.
  eexists. split; [exact Hit|]. split; [reflexivity|]. split; [reflexivity|].
  intros Hacc. cbn [moveLoop]. rewrite Hacc, Hit. reflexivity.
Qed.

(** ** The invariant of the main loop *)

Lemma intervals_closed (mi : float32) :
  In mi intervals ->
  In (if F32.gtb mi F32.f0_04 then F32.mul mi F32.f0_92 else mi) intervals.
Proof.
  unfold intervals. intros H.
  repeat (destruct H as [<-|H];
          [vm_compute; repeat (try (left; reflexivity); right)|]).
  destruct H.
Qed.

Lemma invariant_same g g' :
  cfg g' = cfg g -> startPos g' = startPos g -> snake g' = snake g ->
  food g' = food g -> score g' = score g -> gameOver g' = gameOver g ->
  invariant g -> invariant g'.
Proof.
  intros Ec Est Es Ef Esc Eo [H1 H2 H3 H4 H5 H6 H7 H8].
  constructor; unfold wellFormed in *; rewrite ?Ec, ?Est, ?Es, ?Ef, ?Esc, ?Eo;
    assumption.
Qed.

Lemma startSnake_wellFormed (c : GameConfig) :
  cols c = 32 -> rows c = 24 ->
  NoDup (body startSnake) /\ Forall (inside c) (body startSnake) /\
  body startSnake <> [].
Proof.
  intros Hc Hr. split; [apply make_NoDup|]. split; [|discriminate].
  apply Forall_forall. intros p Hp. apply make_In in Hp.
  unfold inside. simpl in Hp. lia.
Qed.

Lemma invariant_placeFood (fuel : nat) g g' :
  placeFood fuel g = Ok g' ->
  cols (cfg g) = 32 -> rows (cfg g) = 24 -> startPos g = vec2i 16 12 ->
  In (moveInterval (cfg g)) intervals -> In (dir (snake g)) directions ->
  body (snake g) <> [] -> 0 <= score g ->
  NoDup (body (snake g)) -> Forall (inside (cfg g)) (body (snake g)) ->
  invariant g' /\ wellFormed g'.
Proof.
  intros Hp Hc Hr Hst Hmi Hd Hb Hsc Hnd Hin.
  destruct (placeFood_inv _ _ _ Hp) as (p & r & -> & Hocc & _).
  apply occupies_not_In in Hocc.
  assert (Hwf : wellFormed (set_food p (set_rng r g))).
  { unfold wellFormed; cbn. auto. }
  split; [|exact Hwf].
  constructor; cbn; auto.
Qed.

Lemma invariant_init (fuel : nat) (r0 : G) (t0 : Z) g :
  initGame fuel r0 t0 = Ok g -> invariant g.
Proof.
  unfold initGame. intros H.
  destruct (startSnake_wellFormed defaultConfig eq_refl eq_refl)
    as (Hnd & Hin & Hne).
  apply (invariant_placeFood fuel _ g H).
  - reflexivity.
  - reflexivity.
  - reflexivity.
  - left; reflexivity.
  - unfold directions; simpl; auto.
  - discriminate.
  - cbn; lia.
  - exact Hnd.
  - exact Hin.
Qed.

Lemma invariant_restart (fuel : nat) (now : Z) g g' :
  invariant g -> restart fuel now g = Ok g' ->
  invariant g' /\ snake g' = startSnake /\ score g' = 0 /\
  paused g' = false /\ gameOver g' = false /\ moveClock g' = now /\
  cfg g' = cfg g /\ acc g' = acc g /\
  Snake.occupies (snake g') (food g') = false.
Proof.
  intros [H1 H2 H3 H4 H5 H6 H7 H8] H. unfold restart in H.
  destruct (placeFood fuel (set_snake (Snake.make (startPos g) 5) g))
    as [g1| |] eqn:Hp; try discriminate.
  cbn [bind] in H. apply Ok_inj in H. subst g'.
  destruct (startSnake_wellFormed (cfg g) H1 H2) as (Hnd & Hin & Hne).
  pose proof Hp as Hp'.
  apply invariant_placeFood in Hp';
    try (cbn [cfg snake startPos score set_snake]; rewrite ?H3; auto; fail).
  2:{ cbn [snake set_snake]. rewrite H3. simpl. auto. }
  destruct Hp' as [[I1 I2 I3 I4 I5 I6 I7 _] (W1 & W2 & W3)].
  destruct (placeFood_inv _ _ _ Hp) as (p & r & -> & Hocc & _).
  cbn in *. rewrite H3 in *.
  split; [|repeat split; auto].
  constructor; cbn; auto; try lia.
  intros _. unfold wellFormed; cbn. auto.
Qed.

Lemma setDirection_directions (s : Snake) (d : Vec2i) :
  In d directions -> In (dir s) directions ->
  In (dir (Snake.setDirection s d)) directions.
Proof.
  intros Hd Hs. destruct (setDirection_dir s d) as [-> | ->]; assumption.
Qed.

Lemma steer_fields (code : Keyboard.Key) (s : Snake) :
  body (steer code s) = body s /\
  growNext (steer code s) = growNext s /\
  (In (dir s) directions -> In (dir (steer code s)) directions).
Proof.
  unfold steer.
  repeat match goal with
         | |- context [if ?b then _ else _] => destruct b
         end;
    rewrite ?setDirection_body, ?setDirection_growNext;
    (split; [reflexivity|]); (split; [reflexivity|]); intros H;
    repeat (apply setDirection_directions; [unfold directions; simpl; tauto|]);
    exact H.
Qed.

Lemma invariant_steer (code : Keyboard.Key) g :
  invariant g -> invariant (set_snake (steer code (snake g)) g).
Proof.
  intros [H1 H2 H3 H4 H5 H6 H7 H8].
  destruct (steer_fields code (snake g)) as (Eb & _ & Hd).
  constructor; unfold wellFormed in *;
    cbn [snake set_snake cfg startPos score gameOver food];
    rewrite ?Eb; auto.
Qed.

Lemma invariant_handleEvent (fuel : nat) (now : Z) (ev : Event) g g' :
  invariant g -> handleEvent fuel now ev g = Ok g' -> invariant g'.
Proof.
  intros Inv H. destruct ev as [|code|]; cbn [handleEvent] in H.
  - apply Ok_inj in H. subst g'. revert Inv. apply invariant_same; reflexivity.
  - set (g1 := if Keyboard.eqb code Keyboard.Escape
               then set_isOpen false g else g) in H.
    set (g2 := if Keyboard.eqb code Keyboard.P
               then set_paused (negb (paused g1)) g1 else g1) in H.
    assert (Inv2 : invariant g2).
    { subst g2 g1.
      destruct (Keyboard.eqb code Keyboard.Escape),
               (Keyboard.eqb code Keyboard.P);
        revert Inv; apply invariant_same; reflexivity. }
    clearbody g2. clear g1 Inv.
    assert (Inv3 : exists g3,
               (if Keyboard.eqb code Keyboard.R
                then restart fuel now g2 else Ok g2) = Ok g3 /\
               invariant g3 /\
               g' = if negb (gameOver g3)
                    then set_snake (steer code (snake g3)) g3 else g3).
    { destruct (Keyboard.eqb code Keyboard.R).
      - destruct (restart fuel now g2) as [g3| |] eqn:Er; try discriminate.
        cbn [bind] in H. apply Ok_inj in H.
        exists g3. split; [reflexivity|]. split; [|auto].
        apply (invariant_restart fuel now g2 g3 Inv2 Er).
      - cbn [bind] in H. apply Ok_inj in H. exists g2. auto. }
    destruct Inv3 as (g3 & _ & Inv3 & ->).
    destruct (negb (gameOver g3)); [apply invariant_steer|]; exact Inv3.
  - apply Ok_inj in H. subst g'. exact Inv.
Qed.

Lemma invariant_pollEvents (fuel : nat) (now : Z) (evs : list Event) g g' :
  invariant g -> pollEvents fuel now evs g = Ok g' -> invariant g'.
Proof.
  revert g; induction evs as [|ev evs IH]; intros g Inv H; cbn [pollEvents] in H.
  - apply Ok_inj in H. subst; exact Inv.
  - destruct (isOpen g).
    + destruct (handleEvent fuel now ev g) as [g1| |] eqn:E; try discriminate.
      cbn [bind] in H. apply (IH g1); [|exact H].
      apply (invariant_handleEvent fuel now ev g g1 Inv E).
    + apply Ok_inj in H. subst; exact Inv.
Qed.

Lemma invariant_speedUp g : invariant g -> invariant (speedUp g).
Proof.
  intros [H1 H2 H3 H4 H5 H6 H7 H8]. unfold speedUp.
  destruct (Z.rem (score g) 50 =? 0); cbn [andb];
    [|constructor; assumption].
  destruct (F32.gtb (moveInterval (cfg g)) F32.f0_04) eqn:Egt;
    [|constructor; assumption].
  pose proof (intervals_closed _ H4) as Hc. rewrite Egt in Hc.
  constructor; unfold wellFormed in *; cbn; auto.
Qed.

Lemma kept_body (b : bool) (h : Vec2i) (t : list Vec2i) :
  let r := if b then h :: t else removelast (h :: t) in
  (NoDup (h :: t) -> NoDup r) /\
  (forall Q : Vec2i -> Prop, Forall Q (h :: t) -> Forall Q r) /\
  (forall p, In p r -> In p (h :: t)).
Proof.
  destruct b; cbv zeta.
  - auto.
  - split; [apply NoDup_removelast|].
    split; [intros Q; apply Forall_removelast|].
    intros p; apply In_removelast.
Qed.

Lemma invariant_iteration (fuel : nat) g g' (fl : flow) :
  invariant g -> gameOver g = false ->
  iteration fuel g = Ok (fl, g') ->
  invariant g' /\ paused g' = paused g /\
  (fl = Continue -> gameOver g' = false) /\
  (fl = Break -> gameOver g' = true).
Proof.
  intros [H1 H2 H3 H4 H5 H6 H7 H8] Halive H.
  destruct (H8 Halive) as (Hnd & Hin & Hfood).
  destruct (body (snake g)) as [|h t] eqn:E; [congruence|].
  rewrite (iteration_cons fuel g h t E) in H. cbv zeta in H.
  destruct (kept_body (growNext (snake g)) h t) as (Knd & Kin & Ksub).
  cbv zeta in Knd, Kin, Ksub.
  set (nh := Vec2i_add h (dir (snake g))) in *.
  set (rest := if growNext (snake g) then h :: t else removelast (h :: t)) in *.
  cbn [body tl] in H.
  destruct (outside (cfg g) nh) eqn:Eout.
  { apply Ok_inj in H. injection H as <- <-.
    split; [|repeat split; try reflexivity; discriminate].
    constructor; cbn; auto; discriminate. }
  destruct (existsb (fun seg => Vec2i_eqb seg nh) rest) eqn:Eself.
  { apply Ok_inj in H. injection H as <- <-.
    split; [|repeat split; try reflexivity; discriminate].
    constructor; cbn; auto; discriminate. }
  apply outside_false in Eout. apply existsb_eqb_not_In in Eself.
  destruct (Vec2i_eqb nh (food g)) eqn:Efood.
  - match type of H with
    | context [placeFood fuel ?gm] =>
        destruct (placeFood fuel gm) as [g2| |] eqn:Hp; try discriminate
    end.
    cbn [bind] in H. apply Ok_inj in H. injection H as <- <-.
    destruct (placeFood_inv _ _ _ Hp) as (p & r & Eg2 & _).
    apply invariant_placeFood in Hp; cbn; auto; try lia;
      [|discriminate|constructor; auto].
    destruct Hp as [Inv2 Wf2].
    destruct (speedUp_fields g2) as (_ & _ & _ & Eo & Ep & _).
    split; [apply invariant_speedUp, Inv2|].
    rewrite Ep, Eo, Eg2. cbn.
    repeat split; auto; discriminate.
  - apply Ok_inj in H. injection H as <- <-.
    apply Vec2i_eqb_neq in Efood.
    split; [|repeat split; try reflexivity; try discriminate; auto].
    constructor; cbn; auto; try discriminate.
    intros _. unfold wellFormed; cbn.
    split; [constructor; auto|].
    split; [constructor; auto|].
    intros [Hf|Hf]; [congruence|]. apply Hfood. auto.
Qed.

Lemma invariant_moveLoop (fuel : nat) g g' :
  invariant g -> gameOver g = false ->
  moveLoop fuel g = Ok g' ->
  invariant g' /\ paused g' = paused g /\
  (gameOver g' = false ->
   F32.geb (acc g') (moveInterval (cfg g')) = false).
Proof.
  revert g; induction fuel as [|fuel IH]; intros g Inv Halive H;
    cbn [moveLoop] in H;
    destruct (F32.geb (acc g) (moveInterval (cfg g))) eqn:Eacc;
    try discriminate;
    try (apply Ok_inj in H; subst g'; auto; fail).
  destruct (iteration fuel g) as [[fl g1]| |] eqn:Eit; try discriminate.
  cbn [bind] in H.
  destruct (invariant_iteration fuel g g1 fl Inv Halive Eit)
    as (Inv1 & Ep & Hc & Hb).
  destruct fl.
  - destruct (IH g1 Inv1 (Hc eq_refl) H) as (Inv' & Ep' & Hq).
    split; [exact Inv'|]. split; [congruence|exact Hq].
  - apply Ok_inj in H. subst g'. split; [exact Inv1|]. split; [exact Ep|].
    rewrite (Hb eq_refl). discriminate.
Qed.

Lemma invariant_update (fuel : nat) (now : Z) g g' :
  invariant g -> update fuel now g = Ok g' -> invariant g'.
Proof.
  intros Inv H. unfold update in H.
  destruct (negb (paused g) && negb (gameOver g)) eqn:Erun.
  - cbn [Clock.restart] in H.
    apply andb_true_iff in Erun. destruct Erun as [_ Eo].
    apply negb_true_iff in Eo.
    apply invariant_moveLoop in H; [apply H| |exact Eo].
    revert Inv. apply invariant_same; reflexivity.
  - apply Ok_inj in H. subst g'.
    revert Inv. apply invariant_same; reflexivity.
Qed.

Lemma invariant_frame (fuel : nat) (fr : Frame) g g' :
  invariant g -> frame fuel fr g = Ok g' -> invariant g'.
Proof.
  intros Inv H. unfold frame in H.
  destruct (pollEvents fuel (tPoll fr) (events fr) g) as [g1| |] eqn:E;
    try discriminate.
  cbn [bind] in H.
  apply (invariant_update fuel (tUpdate fr) g1 g'); [|exact H].
  apply (invariant_pollEvents fuel (tPoll fr) (events fr) g g1 Inv E).
Qed.

Lemma reachable_invariant g : reachable g -> invariant g.
Proof.
  induction 1 as [fuel r0 t0 g H | fuel fr g g' _ IH _ H].
  - apply (invariant_init fuel r0 t0 g H).
  - apply (invariant_frame fuel fr g g' IH H).
Qed.

Lemma run_reachable (fuel : nat) (frs : list Frame) g g' :
  reachable g -> run fuel frs g = Ok g' -> reachable g'.
Proof.
  revert g; induction frs as [|fr frs IH]; intros g Hr H; cbn [run] in H.
  - apply Ok_inj in H. subst; exact Hr.
  - destruct (isOpen g) eqn:Eo.
    + destruct (frame fuel fr g) as [g1| |] eqn:Ef; try discriminate.
      cbn [bind] in H. apply (IH g1); [|exact H].
      apply (reach_frame fuel fr g g1 Hr Eo Ef).
    + apply Ok_inj in H. subst; exact Hr.
Qed.

(** C7: in every state the game reaches, the body holds at least one cell,
    and while [gameOver] is unset its cells are pairwise distinct. *)
Theorem body_distinct_while_alive g :
  reachable g ->
  (gameOver g = false -> NoDup (body (snake g))) /\
  (1 <= length (body (snake g)))%nat.
Proof.
  intros Hr. destruct (reachable_invariant g Hr) as [_ _ _ _ _ Hb _ Hw].
  split.
  - intros Ho. apply (Hw Ho).
  - destruct (body (snake g)); [congruence|simpl; lia].
Qed.

(** ** What the handlers leave alone *)

Lemma restart_keeps (fuel : nat) (now : Z) g g' :
  restart fuel now g = Ok g' ->
  cfg g' = cfg g /\ acc g' = acc g /\
  snake g' = Snake.make (startPos g) 5 /\ score g' = 0 /\
  paused g' = false /\ gameOver g' = false /\ moveClock g' = now /\
  Snake.occupies (snake g') (food g') = false.
Proof.
  unfold restart. intros H.
  destruct (placeFood fuel (set_snake (Snake.make (startPos g) 5) g))
    as [g1| |] eqn:Hp; try discriminate.
  cbn [bind] in H. apply Ok_inj in H. subst g'.
  destruct (placeFood_inv _ _ _ Hp) as (p & r & -> & Hocc & _).
  cbn. cbn in Hocc. auto 10.
Qed.

Lemma handleEvent_cfg (fuel : nat) (now : Z) (ev : Event) g g' :
  handleEvent fuel now ev g = Ok g' -> cfg g' = cfg g.
Proof.
  destruct ev as [|code|]; cbn [handleEvent]; intros H.
  - apply Ok_inj in H. subst; reflexivity.
  - set (g2 := if Keyboard.eqb code Keyboard.P then _ else _) in H.
    assert (E2 : cfg g2 = cfg g).
    { subst g2. destruct (Keyboard.eqb code Keyboard.Escape),
                         (Keyboard.eqb code Keyboard.P); reflexivity. }
    clearbody g2. rewrite <- E2.
    destruct (Keyboard.eqb code Keyboard.R).
    + destruct (restart fuel now g2) as [g3| |] eqn:Er; try discriminate.
      cbn [bind] in H. apply Ok_inj in H. subst g'.
      apply restart_keeps in Er. destruct Er as (<- & _).
      destruct (negb (gameOver g3)); reflexivity.
    + cbn [bind] in H. apply Ok_inj in H. subst g'.
      destruct (negb (gameOver g2)); reflexivity.
  - apply Ok_inj in H. subst; reflexivity.
Qed.

Lemma pollEvents_cfg (fuel : nat) (now : Z) (evs : list Event) g g' :
  pollEvents fuel now evs g = Ok g' -> cfg g' = cfg g.
Proof.
  revert g; induction evs as [|ev evs IH]; intros g H; cbn [pollEvents] in H.
  - apply Ok_inj in H. subst; reflexivity.
  - destruct (isOpen g); [|apply Ok_inj in H; subst; reflexivity].
    destruct (handleEvent fuel now ev g) as [g1| |] eqn:E; try discriminate.
    cbn [bind] in H. rewrite (IH g1 H). apply (handleEvent_cfg _ _ _ _ _ E).
Qed.

Lemma handleEvent_acc (fuel : nat) (now : Z) (ev : Event) g g' :
  handleEvent fuel now ev g = Ok g' -> acc g' = acc g.
Proof.
  destruct ev as [|code|]; cbn [handleEvent]; intros H.
  - apply Ok_inj in H. subst; reflexivity.
  - set (g2 := if Keyboard.eqb code Keyboard.P then _ else _) in H.
    assert (E2 : acc g2 = acc g).
    { subst g2. destruct (Keyboard.eqb code Keyboard.Escape),
                         (Keyboard.eqb code Keyboard.P); reflexivity. }
    clearbody g2. rewrite <- E2.
    destruct (Keyboard.eqb code Keyboard.R).
    + destruct (restart fuel now g2) as [g3| |] eqn:Er; try discriminate.
      cbn [bind] in H. apply Ok_inj in H. subst g'.
      apply restart_keeps in Er. destruct Er as (_ & <- & _).
      destruct (negb (gameOver g3)); reflexivity.
    + cbn [bind] in H. apply Ok_inj in H. subst g'.
      destruct (negb (gameOver g2)); reflexivity.
  - apply Ok_inj in H. subst; reflexivity.
Qed.

Lemma pollEvents_acc (fuel : nat) (now : Z) (evs : list Event) g g' :
  pollEvents fuel now evs g = Ok g' -> acc g' = acc g.
Proof.
  revert g; induction evs as [|ev evs IH]; intros g H; cbn [pollEvents] in H.
  - apply Ok_inj in H. subst; reflexivity.
  - destruct (isOpen g); [|apply Ok_inj in H; subst; reflexivity].
    destruct (handleEvent fuel now ev g) as [g1| |] eqn:E; try discriminate.
    cbn [bind] in H. rewrite (IH g1 H). apply (handleEvent_acc _ _ _ _ _ E).
Qed.

(** A frame whose update finds the session Paused or GameOver restarts the
    clock and leaves [acc] and the interval as they were, whatever the keys
    (R included). *)
Lemma idle_frame_keeps_acc (fuel : nat) (fr : Frame) g g1 :
  pollEvents fuel (tPoll fr) (events fr) g = Ok g1 ->
  paused g1 = true \/ gameOver g1 = true ->
  exists g',
    frame fuel fr g = Ok g' /\ acc g' = acc g /\ cfg g' = cfg g /\
    moveClock g' = tUpdate fr.
Proof.
  intros Hp Hidle. unfold frame. rewrite Hp. cbn [bind].
  rewrite (update_idle fuel (tUpdate fr) g1 Hidle).
  eexists. split; [reflexivity|]. cbn.
  rewrite (pollEvents_acc _ _ _ _ _ Hp), (pollEvents_cfg _ _ _ _ _ Hp). auto.
Qed.

(** A pass that ends in [break] has taken one interval off [acc] and no
    more. *)
Lemma break_keeps_rest (fuel : nat) g g' :
  iteration fuel g = Ok (Break, g') ->
  acc g' = F32.sub (acc g) (moveInterval (cfg g)) /\ cfg g' = cfg g.
Proof.
  intros H.
  destruct (body (snake g)) as [|h t] eqn:E.
  { unfold iteration, Snake.move, Snake.head in H.
    cbn [snake set_acc] in H. rewrite E in H. discriminate. }
  rewrite (iteration_cons fuel g h t E) in H. cbv zeta in H.
  repeat match type of H with
         | (if ?b then _ else _) = _ => destruct b
         end;
    try (apply Ok_inj in H; injection H as <-; split; reflexivity);
    try (apply Ok_inj in H; discriminate H).
  destruct (placeFood fuel _); discriminate H.
Qed.

(** ** The move interval *)

Lemma speedUp_at_floor g :
  F32.gtb (moveInterval (cfg g)) F32.f0_04 = false -> speedUp g = g.
Proof.
  intros H. unfold speedUp. rewrite H, andb_false_r. reflexivity.
Qed.

Lemma iteration_at_floor (fuel : nat) g g' (fl : flow) :
  F32.gtb (moveInterval (cfg g)) F32.f0_04 = false ->
  iteration fuel g = Ok (fl, g') -> cfg g' = cfg g.
Proof.
  intros Hfloor H.
  destruct (body (snake g)) as [|h t] eqn:E.
  { unfold iteration, Snake.move, Snake.head in H.
    cbn [snake set_acc] in H. rewrite E in H. discriminate. }
  rewrite (iteration_cons fuel g h t E) in H. cbv zeta in H.
  repeat match type of H with
         | (if ?b then _ else _) = _ => destruct b
         end;
    try (apply Ok_inj in H; injection H as <- <-; reflexivity).
  match type of H with
  | context [placeFood fuel ?gm] =>
      destruct (placeFood fuel gm) as [g2| |] eqn:Hp; try discriminate
  end.
  cbn [bind] in H. apply Ok_inj in H. injection H as <- <-.
  destruct (placeFood_inv _ _ _ Hp) as (p & r & -> & _).
  rewrite speedUp_at_floor; [reflexivity|exact Hfloor].
Qed.

Lemma moveLoop_at_floor (fuel : nat) g g' :
  F32.gtb (moveInterval (cfg g)) F32.f0_04 = false ->
  moveLoop fuel g = Ok g' -> cfg g' = cfg g.
Proof.
  revert g; induction fuel as [|fuel IH]; intros g Hfloor H;
    cbn [moveLoop] in H;
    destruct (F32.geb (acc g) (moveInterval (cfg g)));
    try discriminate;
    try (apply Ok_inj in H; subst g'; reflexivity).
  destruct (iteration fuel g) as [[fl g1]| |] eqn:Eit; try discriminate.
  cbn [bind] in H.
  pose proof (iteration_at_floor fuel g g1 fl Hfloor Eit) as E1.
  destruct fl.
  - rewrite <- E1. apply IH; [rewrite E1; exact Hfloor|exact H].
  - apply Ok_inj in H. subst g'. exact E1.
Qed.

Lemma frame_at_floor (fuel : nat) (fr : Frame) g g' :
  F32.gtb (moveInterval (cfg g)) F32.f0_04 = false ->
  frame fuel fr g = Ok g' -> cfg g' = cfg g.
Proof.
  intros Hfloor H. unfold frame in H.
  destruct (pollEvents fuel (tPoll fr) (events fr) g) as [g1| |] eqn:E;
    try discriminate.
  cbn [bind] in H. apply pollEvents_cfg in E. rewrite <- E in *.
  unfold update in H.
  destruct (negb (paused g1) && negb (gameOver g1)).
  - cbn [Clock.restart] in H. apply moveLoop_at_floor in H; [exact H|].
    exact Hfloor.
  - apply Ok_inj in H. subst g'. reflexivity.
Qed.

Lemma run_at_floor (fuel : nat) (frs : list Frame) g g' :
  F32.gtb (moveInterval (cfg g)) F32.f0_04 = false ->
  run fuel frs g = Ok g' -> cfg g' = cfg g.
Proof.
  revert g; induction frs as [|fr frs IH]; intros g Hfloor H; cbn [run] in H.
  - apply Ok_inj in H. subst; reflexivity.
  - destruct (isOpen g); [|apply Ok_inj in H; subst; reflexivity].
    destruct (frame fuel fr g) as [g1| |] eqn:Ef; try discriminate.
    cbn [bind] in H. apply frame_at_floor in Ef; [|exact Hfloor].
    rewrite <- Ef. apply IH; [rewrite Ef; exact Hfloor|exact H].
Qed.

Lemma intervals_bounds (mi : float32) :
  In mi intervals ->
  F32.leb shortestInterval mi = true /\ F32.leb mi F32.f0_12 = true.
Proof.
  unfold intervals. intros H.
  repeat (destruct H as [<-|H]; [split; reflexivity|]).
  destruct H.
Qed.

Lemma ltb_irrefl (v : float32) : F32.ltb v v = false.
Proof.
  unfold F32.ltb, SFltb, SFcompare.
  destruct v as [sg|sg| |sg m e]; try reflexivity.
  - destruct sg; reflexivity.
  - destruct sg; rewrite Z.compare_refl, Pos.compare_cont_refl; reflexivity.
Qed.

Lemma iteration_interval (fuel : nat) g g' (fl : flow) :
  iteration fuel g = Ok (fl, g') ->
  moveInterval (cfg g') =
    if (score g' =? score g + 10) && (Z.rem (score g') 50 =? 0)
       && F32.gtb (moveInterval (cfg g)) F32.f0_04
    then F32.mul (moveInterval (cfg g)) F32.f0_92
    else moveInterval (cfg g).
Proof.
  intros H.
  destruct (body (snake g)) as [|h t] eqn:E.
  { unfold iteration, Snake.move, Snake.head in H.
    cbn [snake set_acc] in H. rewrite E in H. discriminate. }
  rewrite (iteration_cons fuel g h t E) in H. cbv zeta in H.
  assert (Hsame : (score g =? score g + 10) = false) by (apply Z.eqb_neq; lia).
  repeat match type of H with
         | (if ?b then _ else _) = _ => destruct b
         end;
    try (apply Ok_inj in H; injection H as <- <-;
         cbn [score cfg set_gameOver set_snake set_acc];
         rewrite Hsame; reflexivity).
  match type of H with
  | context [placeFood fuel ?gm] =>
      destruct (placeFood fuel gm) as [g2| |] eqn:Hp; try discriminate
  end.
  cbn [bind] in H. apply Ok_inj in H. injection H as <- <-.
  destruct (placeFood_inv _ _ _ Hp) as (p & r & -> & _).
  match goal with
  | |- context [speedUp ?gm] =>
      destruct (speedUp_fields gm) as (_ & _ & -> & _);
      unfold speedUp;
      cbn [score cfg set_food set_rng set_score set_snake set_acc]
  end.
  rewrite Z.eqb_refl. cbn [andb].
  destruct (_ && _); reflexivity.
Qed.

(** C2 (amended): a pass of the move loop changes the interval in one case
    only: a meal that brings the score to a multiple of 50 while the
    interval is above [0.04f] multiplies it by [0.92f], and the product is
    stored as it is, with no clamping, so that it may lie below [0.04f];
    such a meal does end when the generator draws a free cell for the
    food.  Once the interval is at or below [0.04f], frames without the key
    R never decrease it further: they leave it as it is.  From [0.12f] the
    interval only takes the fifteen values of [intervals], the last of
    which, about 0.0373, it never undercuts. *)
Theorem speed_up_without_clamp :
  (forall (fuel : nat) g g' (fl : flow),
     iteration fuel g = Ok (fl, g') ->
     moveInterval (cfg g') =
       if (score g' =? score g + 10) && (Z.rem (score g') 50 =? 0)
          && F32.gtb (moveInterval (cfg g)) F32.f0_04
       then F32.mul (moveInterval (cfg g)) F32.f0_92
       else moveInterval (cfg g)) /\
  (forall (fuel : nat) g (s' : Snake) (nh : Vec2i),
     Snake.move (snake g) = Ok s' ->
     Snake.head s' = Ok nh ->
     outside (cfg g) nh = false ->
     Snake.collidesWithSelf s' = Ok false ->
     nh = food g ->
     drawsFree fuel (cfg g) s' (rng g) = true ->
     exists g',
       iteration fuel g = Ok (Continue, g') /\
       score g' = score g + 10 /\
       moveInterval (cfg g') =
         if (Z.rem (score g') 50 =? 0)
            && F32.gtb (moveInterval (cfg g)) F32.f0_04
         then F32.mul (moveInterval (cfg g)) F32.f0_92
         else moveInterval (cfg g)) /\
  (forall (fuel : nat) (frs : list Frame) g g',
     F32.gtb (moveInterval (cfg g)) F32.f0_04 = false ->
     Forall no_restart frs ->
     run fuel frs g = Ok g' ->
     F32.ltb (moveInterval (cfg g')) (moveInterval (cfg g)) = false /\
     moveInterval (cfg g') = moveInterval (cfg g)) /\
  (forall g,
     reachable g ->
     In (moveInterval (cfg g)) intervals /\
     F32.leb shortestInterval (moveInterval (cfg g)) = true).
Proof.
  split; [apply iteration_interval|]. split; [|split].
  - intros fuel g s' nh Hm Hh Hout Hself Hfood Hfree.
    destruct (meal_pass fuel g s' nh Hm Hh Hout Hself Hfood Hfree)
      as (p & r & Hit & _).
    eexists. split; [exact Hit|].
    match goal with
    | |- context [speedUp ?gm] =>
        destruct (speedUp_fields gm) as (_ & _ & -> & _);
        unfold speedUp; cbn [score cfg set_food set_rng set_score set_snake set_acc]
    end.
    split; [reflexivity|].
    destruct (_ && _); reflexivity.
  - intros fuel frs g g' Hfloor _ H.
    rewrite (run_at_floor fuel frs g g' Hfloor H).
    split; [apply ltb_irrefl|reflexivity].
  - intros g Hr. pose proof (inv_interval g (reachable_invariant g Hr)) as Hin.
    split; [exact Hin|]. apply intervals_bounds, Hin.
Qed.

End Properties.

(** * The scenarios *)

Ltac distinct_cells :=
  repeat (constructor;
          [simpl; intros H;
           repeat (destruct H as [H|H]; [discriminate H|]); exact H|]);
  constructor.

Ltac cells_inside :=
  repeat (constructor; [unfold inside; simpl; lia|]); constructor.

Ltac no_key_R :=
  repeat (constructor;
          [unfold no_restart; simpl; intros H;
           repeat (destruct H as [H|H]; [discriminate H|]); exact H|]);
  constructor.

Lemma wallStart_reachable : reachable wallStart.
Proof. apply (reach_init 1%nat [3; 3; 5; 5] 0). reflexivity. Qed.

Lemma mealStart_reachable : reachable mealStart.
Proof. apply (reach_init 1%nat [17; 12; 3; 3] 0). reflexivity. Qed.

Lemma fiveMealsStart_reachable : reachable fiveMealsStart.
Proof.
  apply (reach_init 1%nat
           [17; 12; 18; 12; 19; 12; 20; 12; 21; 12; 3; 3; 5; 5] 0).
  reflexivity.
Qed.

Lemma routeStart_reachable : reachable routeStart.
Proof.
  apply (reach_init 1%nat (flat_map (fun p => [x p; y p]) route) 0).
  vm_compute. reflexivity.
Qed.

Lemma fed_reachable : reachable fed.
Proof.
  apply (run_reachable 3 (frames_from 0 120000 [[]]) mealStart).
  - exact mealStart_reachable.
  - vm_compute. reflexivity.
Qed.

Lemma slow_run : run 3 (autopilot 620 0 routeStart) routeStart = Ok slow.
Proof. vm_compute. reflexivity. Qed.

(** C1: five meals bring the score to 50 and the interval to
    [0.12f * 0.92f]; the key R then rebuilds the snake at its starting
    cells, moves the food off it, zeroes the score and leaves the session
    Running, but the interval stays at [0.12f * 0.92f]: the handler never
    writes [cfg.moveInterval], so the configured [0.12f] is not restored. *)
Theorem restart_keeps_speed :
  exists g50 g,
    run 3 fiveMeals fiveMealsStart = Ok g50 /\
    score g50 = 50 /\
    frame 3 (pressR 700000) g50 = Ok g /\
    snake g = startSnake /\ score g = 0 /\ running g /\
    Snake.occupies (snake g) (food g) = false /\
    moveInterval (cfg g) = F32.mul F32.f0_12 F32.f0_92 /\
    moveInterval (cfg g) <> moveInterval defaultConfig.
Proof.
  eexists. eexists.
  split; [vm_compute; reflexivity|]. split; [reflexivity|].
  split; [vm_compute; reflexivity|].
  unfold running. cbn.
  repeat split; try reflexivity. discriminate.
Qed.

(** C3: a frame that stalls for a second while the head is at the wall ends
    the game on its first pass and leaves the rest of that second, 0.88 s,
    in [acc]; neither the frames spent in GameOver nor the key R clear it.
    In the frame of the restart the update reads the clock 50 microseconds
    after the handler restarted it, far less than the interval, and yet the
    loop makes seven passes at once: the fresh snake jumps from (16,12) to
    (23,12). *)
Theorem restart_after_stall_bursts :
  run 3 (toTheWall ++ [stalled]) wallStart = Ok crashed /\
  gameOver crashed = true /\
  F32.geb (acc crashed) (moveInterval (cfg crashed)) = true /\
  exists g,
    frame 8 (pressR 2808333) crashed = Ok g /\
    running g /\
    F32.ltb (Clock.asSeconds 50) (moveInterval (cfg g)) = true /\
    headCell g = vec2i 23 12.
Proof.
  split; [vm_compute; reflexivity|]. split; [reflexivity|].
  split; [reflexivity|].
  eexists. split; [vm_compute; reflexivity|].
  unfold running. cbn. repeat split; reflexivity.
Qed.

(** C4, as stated, fails: in the state the first meal leaves, which is
    Running with the growth flag set, the next pass puts the head on the
    grid, on no segment and not on the food, and the body grows from five
    cells to six: the tail cell is kept. *)
Lemma plain_step_may_grow :
  reachable fed /\ running fed /\
  exists (s' : Snake) (nh : Vec2i) (g' : Game (list Z)),
    Snake.move (snake fed) = Ok s' /\
    Snake.head s' = Ok nh /\
    outside (cfg fed) nh = false /\
    Snake.collidesWithSelf s' = Ok false /\
    Vec2i_eqb nh (food fed) = false /\
    iteration 0 fed = Ok (Continue, g') /\
    length (body (snake fed)) = 5%nat /\
    length (body (snake g')) = 6%nat /\
    In (last (body (snake fed)) nh) (body (snake g')).
Proof.
  split; [exact fed_reachable|]. split; [split; reflexivity|].
  eexists. eexists. eexists.
  split; [reflexivity|]. split; [reflexivity|].
  split; [reflexivity|]. split; [reflexivity|]. split; [reflexivity|].
  split; [reflexivity|]. split; [reflexivity|]. split; [reflexivity|].
  simpl. tauto.
Qed.

Lemma plain_step_shifts_witness :
  exists g',
    iteration 0 wallStart = Ok (Continue, g') /\
    length (body (snake g')) = 5%nat /\
    ~ In (vec2i 12 12) (body (snake g')).
Proof.
  destruct (plain_step_shifts 0 wallStart
              {| body := [vec2i 17 12; vec2i 16 12; vec2i 15 12;
                          vec2i 14 12; vec2i 13 12];
                 dir := vec2i 1 0; growNext := false |}
              (vec2i 17 12))
    as (h & t & g' & _ & _ & Hit & _ & Hlen & _ & Htail & _);
    try reflexivity.
  exists g'. split; [exact Hit|]. split; [exact Hlen|].
  apply Htail.
  - apply make_NoDup.
  - discriminate.
Defined.

Lemma meal_grows_next_step_witness :
  exists g',
    iteration 1 mealStart = Ok (Continue, g') /\
    score g' = 10 /\
    length (body (snake g')) = 5%nat /\
    growNext (snake g') = true /\
    Snake.occupies (snake g') (food g') = false.
Proof.
  destruct (meal_grows_next_step 1 mealStart
              {| body := [vec2i 17 12; vec2i 16 12; vec2i 15 12;
                          vec2i 14 12; vec2i 13 12];
                 dir := vec2i 1 0; growNext := false |}
              (vec2i 17 12))
    as (g' & Hit & Hscore & _ & Hlen & Hgrow & _ & Hocc & _);
    try reflexivity.
  exists g'. split; [exact Hit|]. split; [exact Hscore|].
  split; [apply Hlen; reflexivity|]. split; [exact Hgrow|exact Hocc].
Defined.

Lemma wall_ends_game_witness :
  (exists g', iteration 0 atWall = Ok (Break, g') /\ gameOver g' = true) /\
  (exists g',
     run 3 (frames_from 2800000 8333
              [[KeyPressed Keyboard.Up]; [KeyPressed Keyboard.P]; []])
         crashed = Ok g' /\
     snake g' = snake crashed /\ gameOver g' = true).
Proof.
  destruct (@wall_ends_game (list Z) Scripted) as [Ha Hb]. split.
  - destruct (Ha 0%nat atWall
                {| body := [vec2i 32 12; vec2i 31 12; vec2i 30 12;
                            vec2i 29 12; vec2i 28 12];
                   dir := vec2i 1 0; growNext := false |}
                (vec2i 32 12))
      as (g' & Hit & Hover & _); try reflexivity.
    + right; left. simpl. lia.
    + exists g'. split; [exact Hit|exact Hover].
  - apply Hb; [reflexivity|]. simpl. no_key_R.
Defined.

Lemma body_distinct_while_alive_witness :
  NoDup (body (snake fed)) /\ (1 <= length (body (snake fed)))%nat.
Proof.
  destruct (body_distinct_while_alive fed) as [Hnd Hlen].
  - apply (run_reachable 3 (frames_from 0 120000 [[]]) mealStart).
    + apply (reach_init 1%nat [17; 12; 3; 3] 0). reflexivity.
    + vm_compute. reflexivity.
  - split; [apply Hnd; reflexivity|exact Hlen].
Defined.

Lemma head_onto_tail_is_safe_witness :
  exists g',
    iteration 0 coiled = Ok (Continue, g') /\
    running g' /\
    body (snake g') =
      [vec2i 16 12; vec2i 16 13; vec2i 17 13; vec2i 18 13; vec2i 18 12;
       vec2i 17 12].
Proof.
  destruct (head_onto_tail_is_safe 0 coiled (vec2i 16 13)
              [vec2i 17 13; vec2i 18 13; vec2i 18 12; vec2i 17 12;
               vec2i 16 12])
    as (g' & Hit & Hrun & Hbody & _).
  - split; reflexivity.
  - reflexivity.
  - reflexivity.
  - distinct_cells.
  - cells_inside.
  - simpl. intros H.
    repeat (destruct H as [H|H]; [discriminate H|]). exact H.
  - reflexivity.
  - exists g'. split; [exact Hit|]. split; [exact Hrun|exact Hbody].
Defined.

(** The same two turns in the game: the snake steps to the right, the keys
    Up and Left arrive in one frame, and the step of that frame sends the
    head back onto (16,12), which ends the game. *)
Example two_keys_end_game :
  exists g,
    run 3 (frames_from 0 120000
             [[]; [KeyPressed Keyboard.Up; KeyPressed Keyboard.Left]])
        wallStart = Ok g /\
    dir (snake g) = vec2i (-1) 0 /\
    headCell g = vec2i 16 12 /\
    gameOver g = true.
Proof.
  eexists. split; [vm_compute; reflexivity|]. cbn. auto.
Qed.

(** C2, as stated, fails: seventy meals in one game, no restart, take the
    score to 700 and the interval through fourteen multiplications by
    [0.92f]; the thirteenth product, about 0.0406, is still above [0.04f],
    so the fourteenth is made and stored, and the interval is then below
    [0.04f]. *)
Lemma interval_below_floor :
  run 3 (autopilot 620 0 routeStart) routeStart = Ok slow /\
  Forall no_restart (autopilot 620 0 routeStart) /\
  reachable slow /\ running slow /\ score slow = 700 /\
  moveInterval (cfg slow) = Nat.iter 14 (fun i => F32.mul i F32.f0_92) F32.f0_12 /\
  F32.ltb (moveInterval (cfg slow)) F32.f0_04 = true.
Proof.
  split; [exact slow_run|].
  split.
  { apply Forall_forall. intros fr Hfr.
    assert (Hb : forallb
                   (fun fr => negb (existsb
                      (fun ev => match ev with
                                 | KeyPressed Keyboard.R => true
                                 | _ => false
                                 end) (events fr)))
                   (autopilot 620 0 routeStart) = true)
      by (vm_compute; reflexivity).
    rewrite forallb_forall in Hb. specialize (Hb fr Hfr).
    apply negb_true_iff in Hb. unfold no_restart. intros Hin.
    assert (Ht : existsb
                   (fun ev => match ev with
                              | KeyPressed Keyboard.R => true
                              | _ => false
                              end) (events fr) = true).
    { apply existsb_exists. eexists. split; [exact Hin|reflexivity]. }
    congruence. }
  split.
  { apply (run_reachable 3 (autopilot 620 0 routeStart) routeStart).
    - exact routeStart_reachable.
    - exact slow_run. }
  split; [split; reflexivity|].
  split; [reflexivity|]. split; vm_compute; reflexivity.
Qed.

Lemma speed_up_without_clamp_witness :
  (exists g',
     iteration 1 beforeFifth = Ok (Continue, g') /\
     score g' = 50 /\
     moveInterval (cfg g') = F32.mul F32.f0_12 F32.f0_92) /\
  (exists g',
     run 3 (frames_from 5166460 8333 [[]; [KeyPressed Keyboard.P]; []]) slow
       = Ok g' /\
     F32.ltb (moveInterval (cfg g')) (moveInterval (cfg slow)) = false) /\
  F32.leb shortestInterval (moveInterval (cfg fed)) = true.
Proof.
  destruct (@speed_up_without_clamp (list Z) Scripted) as (H0 & H1 & H2 & H3).
  split; [|split].
  - destruct (H1 1%nat beforeFifth
                {| body := [vec2i 21 12; vec2i 20 12; vec2i 19 12;
                            vec2i 18 12; vec2i 17 12; vec2i 16 12;
                            vec2i 15 12; vec2i 14 12; vec2i 13 12];
                   dir := vec2i 1 0; growNext := false |}
                (vec2i 21 12))
      as (g' & Hit & Hscore & _); try reflexivity.
    exists g'. split; [exact Hit|]. split; [exact Hscore|].
    rewrite (H0 1%nat beforeFifth g' Continue Hit), Hscore. reflexivity.
  - eexists. split; [vm_compute; reflexivity|].
    apply (H2 3%nat (frames_from 5166460 8333 [[]; [KeyPressed Keyboard.P]; []])
              slow).
    + reflexivity.
    + simpl. no_key_R.
    + vm_compute. reflexivity.
  - apply H3. exact fed_reachable.
Defined.

(** * More of the snake *)

Lemma chained_removelast (l : list Vec2i) : chained l -> chained (removelast l).
Proof.
  induction l as [|a l IH]; [auto|].
  destruct l as [|b l]; [auto|].
  rewrite removelast_cons2. intros [Hab Hc].
  destruct l as [|c l]; [exact I|].
  rewrite removelast_cons2 in *. split; [exact Hab|apply IH, Hc].
Qed.

Lemma chained_row (start : Vec2i) (a k : nat) :
  chained (map (fun i => vec2i (x start - Z.of_nat i) (y start)) (seq a k)).
Proof.
  revert a; induction k as [|k IH]; intros a; [exact I|].
  destruct k as [|k]; [exact I|].
  specialize (IH (S a)). cbn [seq map] in IH |- *.
  split; [|exact IH].
  exists (vec2i 1 0). split; [unfold directions; simpl; tauto|].
  unfold Vec2i_add; cbn [x y]. f_equal; lia.
Qed.

(** X1: as long as [start], [initialLength] and the leftmost cell fit a
    32-bit [int], the constructor lays [initialLength] cells on the row of
    [start], from [start] leftwards: they are pairwise distinct, each next
    to its predecessor, none of their coordinates leaves the [int] range,
    the snake faces right with no growth pending; a non-positive length
    leaves the body empty, and [head] is then undefined. *)
Theorem make_lays_a_row (start : Vec2i) (n : Z) :
  int32 (x start) -> int32 (y start) -> int32 n ->
  -2147483648 <= x start - Z.max 0 (n - 1) ->
  length (body (Snake.make start n)) = Z.to_nat n /\
  NoDup (body (Snake.make start n)) /\
  chained (body (Snake.make start n)) /\
  (forall p, In p (body (Snake.make start n)) <->
             y p = y start /\ x start - n < x p <= x start) /\
  Forall (fun p => int32 (x p) /\ int32 (y p)) (body (Snake.make start n)) /\
  dir (Snake.make start n) = vec2i 1 0 /\
  growNext (Snake.make start n) = false /\
  Snake.head (Snake.make start n) = if 0 <? n then Ok start else Undefined.
Proof.
  intros Hx Hy Hn Hleft.
  split; [apply make_body_length|]. split; [apply make_NoDup|].
  split; [apply chained_row|].
  split.
  { intros p. split; [apply make_In|].
    intros [Hpy Hpx]. unfold Snake.make; cbn [body]. apply in_map_iff.
    exists (Z.to_nat (x start - x p)). split.
    - destruct p as [px py]; cbn [x y] in *. f_equal; lia.
    - apply in_seq. lia. }
  split.
  { apply Forall_forall. intros p Hp. apply make_In in Hp.
    unfold int32 in *. lia. }
  split; [reflexivity|]. split; [reflexivity|].
  unfold Snake.head, Snake.make; cbn [body].
  destruct (0 <? n) eqn:E.
  - apply Z.ltb_lt in E.
    destruct (Z.to_nat n) as [|k] eqn:Ek; [lia|].
    cbn [seq map]. destruct start as [sx sy]; cbn [x y].
    change (Z.of_nat 0) with 0. rewrite Z.sub_0_r. reflexivity.
  - apply Z.ltb_ge in E.
    replace (Z.to_nat n) with 0%nat by lia. reflexivity.
Qed.

Lemma make_lays_a_row_witness :
  length (body (Snake.make (vec2i 16 12) 5)) = 5%nat /\
  NoDup (body (Snake.make (vec2i 16 12) 5)) /\
  Snake.head (Snake.make (vec2i 16 12) 5) = Ok (vec2i 16 12).
Proof.
  destruct (make_lays_a_row (vec2i 16 12) 5)
    as (Hl & Hnd & _ & _ & _ & _ & _ & Hh);
    try (unfold int32; simpl; lia).
  auto.
Defined.

(** X2: [collidesWithSelf] compares the head with the other segments and
    nothing else: on a body whose segments behind the head are pairwise
    distinct it answers false exactly when the whole body is duplicate-free;
    an overlap among the other segments goes unnoticed. *)
Theorem collidesWithSelf_looks_at_head (s : Snake) (h : Vec2i) (t : list Vec2i) :
  body s = h :: t ->
  (NoDup t -> (Snake.collidesWithSelf s = Ok false <-> NoDup (body s))) /\
  (~ In h t -> Snake.collidesWithSelf s = Ok false).
Proof.
  intros E. unfold Snake.collidesWithSelf, Snake.head. rewrite E.
  cbn [bind tl]. split.
  - intros Hnd. split.
    + intros H. apply Ok_inj in H. apply existsb_eqb_not_In in H.
      constructor; assumption.
    + intros H. inversion H as [|? ? Hn _]; subst. f_equal.
      apply existsb_eqb_not_In, Hn.
  - intros Hn. f_equal. apply existsb_eqb_not_In, Hn.
Qed.

Lemma collidesWithSelf_looks_at_head_witness :
  Snake.collidesWithSelf startSnake = Ok false /\
  Snake.collidesWithSelf
    {| body := [vec2i 9 9; vec2i 1 1; vec2i 2 1; vec2i 1 1];
       dir := vec2i 1 0; growNext := false |} = Ok false.
Proof.
  split.
  - assert (Ht : NoDup [vec2i 15 12; vec2i 14 12; vec2i 13 12; vec2i 12 12])
      by distinct_cells.
    destruct (collidesWithSelf_looks_at_head startSnake (vec2i 16 12)
                [vec2i 15 12; vec2i 14 12; vec2i 13 12; vec2i 12 12]
                eq_refl) as [Hc _].
    apply (proj2 (Hc Ht)). apply make_NoDup.
  - destruct (collidesWithSelf_looks_at_head
                {| body := [vec2i 9 9; vec2i 1 1; vec2i 2 1; vec2i 1 1];
                   dir := vec2i 1 0; growNext := false |}
                (vec2i 9 9) [vec2i 1 1; vec2i 2 1; vec2i 1 1] eq_refl)
      as [_ H].
    apply H. simpl. intros Hin.
    repeat (destruct Hin as [Hin|Hin]; [discriminate Hin|]). exact Hin.
Defined.

(** * More of the game *)

Section Coverage.

Context {G : Type} {RS : RandomSource G}.

Implicit Types g : Game G.

(** ** The food placer *)

Lemma placeFood_gives_up (fuel : nat) g :
  drawsFree fuel (cfg g) (snake g) (rng g) = false ->
  placeFood fuel g = OutOfFuel.
Proof.
  revert g; induction fuel as [|fuel IH]; intros g; simpl; [reflexivity|].
  destruct (nextInt (rng g) 0 (cols (cfg g) - 1)) as [px r1].
  destruct (nextInt r1 0 (rows (cfg g) - 1)) as [py r2].
  destruct (Snake.occupies (snake g) (vec2i px py)); simpl.
  - intros H. apply (IH (set_rng r2 g)). exact H.
  - discriminate.
Qed.

Lemma placeFood_first_free (fuel : nat) g :
  drawsFree fuel (cfg g) (snake g) (rng g) = true ->
  exists k,
    (k < fuel)%nat /\
    (forall j, (j < k)%nat ->
       Snake.occupies (snake g) (fst (nthDraw j (cfg g) (rng g))) = true) /\
    Snake.occupies (snake g) (fst (nthDraw k (cfg g) (rng g))) = false /\
    placeFood fuel g =
      Ok (set_food (fst (nthDraw k (cfg g) (rng g)))
            (set_rng (snd (nthDraw k (cfg g) (rng g))) g)).
Proof.
  revert g; induction fuel as [|fuel IH]; intros g; [discriminate|].
  cbn [drawsFree placeFood].
  destruct (nextInt (rng g) 0 (cols (cfg g) - 1)) as [px r1] eqn:E1.
  destruct (nextInt r1 0 (rows (cfg g) - 1)) as [py r2] eqn:E2.
  cbn [snake set_rng].
  destruct (Snake.occupies (snake g) (vec2i px py)) eqn:Eo; cbn [negb orb].
  - intros H. destruct (IH (set_rng r2 g) H) as (k & Hk & Hbusy & Hfree & Hp).
    cbn [cfg snake rng set_rng] in Hbusy, Hfree, Hp.
    assert (Hnext : forall j, nthDraw (S j) (cfg g) (rng g)
                              = nthDraw j (cfg g) r2).
    { intros j. cbn [nthDraw]. rewrite E1, E2. reflexivity. }
    exists (S k). split; [lia|]. split.
    + intros [|j] Hj.
      * cbn [nthDraw]. rewrite E1, E2. exact Eo.
      * rewrite Hnext. apply Hbusy. lia.
    + rewrite Hnext. split; [exact Hfree|]. rewrite Hp. reflexivity.
  - intros _. exists 0%nat. split; [lia|]. split; [intros j Hj; lia|].
    cbn [nthDraw]. rewrite E1, E2. cbn [fst snd]. split; [exact Eo|reflexivity].
Qed.

(** X3: [placeFood] returns exactly when one of its rounds draws a cell the
    snake does not occupy: the food is put on the first such cell drawn,
    which lies on the grid, the generator is left as that round left it,
    and nothing else of the game has changed.  While every round draws an
    occupied cell it keeps sampling. *)
Theorem placeFood_finds_free_cell (fuel : nat) g :
  0 < cols (cfg g) -> 0 < rows (cfg g) ->
  (drawsFree fuel (cfg g) (snake g) (rng g) = true ->
   exists k,
     (k < fuel)%nat /\
     (forall j, (j < k)%nat ->
        In (fst (nthDraw j (cfg g) (rng g))) (body (snake g))) /\
     ~ In (fst (nthDraw k (cfg g) (rng g))) (body (snake g)) /\
     inside (cfg g) (fst (nthDraw k (cfg g) (rng g))) /\
     placeFood fuel g =
       Ok (set_food (fst (nthDraw k (cfg g) (rng g)))
             (set_rng (snd (nthDraw k (cfg g) (rng g))) g))) /\
  (drawsFree fuel (cfg g) (snake g) (rng g) = false ->
   placeFood fuel g = OutOfFuel).
Proof.
  intros Hc Hr. split; [|apply placeFood_gives_up].
  intros Hfree.
  destruct (placeFood_first_free fuel g Hfree) as (k & Hk & Hbusy & Hoff & Hp).
  exists k. split; [exact Hk|].
  split; [intros j Hj; apply occupies_In, Hbusy, Hj|].
  split; [apply occupies_not_In, Hoff|].
  split; [|exact Hp].
  destruct (placeFood_inv fuel g _ Hp) as (p & r & Eg & _ & Hin).
  assert (Ef : food (set_food p (set_rng r g))
               = fst (nthDraw k (cfg g) (rng g))) by (rewrite <- Eg; reflexivity).
  cbn [food set_food] in Ef. subst p. apply Hin; assumption.
Qed.

Lemma drawsFree_full_grid (fuel : nat) (c : GameConfig) (s : Snake) (r : G) :
  0 < cols c -> 0 < rows c ->
  (forall p, inside c p -> In p (body s)) ->
  drawsFree fuel c s r = false.
Proof.
  intros Hc Hr Hfull. revert r; induction fuel as [|fuel IH]; intros r;
    simpl; [reflexivity|].
  pose proof (nextInt_range r 0 (cols c - 1)) as R1.
  destruct (nextInt r 0 (cols c - 1)) as [px r1].
  pose proof (nextInt_range r1 0 (rows c - 1)) as R2.
  destruct (nextInt r1 0 (rows c - 1)) as [py r2].
  simpl in R1, R2.
  replace (Snake.occupies s (vec2i px py)) with true.
  - simpl. apply IH.
  - symmetry. apply occupies_In, Hfull. unfold inside; simpl. lia.
Qed.

(** X4: when the snake covers the whole grid, [placeFood] never finds a
    cell: whatever the generator draws and however many rounds it is given,
    the loop is still running. *)
Theorem placeFood_full_grid (fuel : nat) g :
  0 < cols (cfg g) -> 0 < rows (cfg g) ->
  (forall p, inside (cfg g) p -> In p (body (snake g))) ->
  placeFood fuel g = OutOfFuel.
Proof.
  intros Hc Hr Hfull. apply placeFood_gives_up.
  apply drawsFree_full_grid; assumption.
Qed.

(** ** Events *)

Lemma steer_idle (code : Keyboard.Key) (s : Snake) :
  code = Keyboard.Escape \/ code = Keyboard.P \/ code = Keyboard.R \/
  code = Keyboard.Other ->
  steer code s = s.
Proof. intros [-> | [-> | [-> | ->]]]; reflexivity. Qed.

Lemma handleEvent_board (fuel : nat) (now : Z) (ev : Event) g :
  ev <> KeyPressed Keyboard.R ->
  exists g',
    handleEvent fuel now ev g = Ok g' /\ sameBoard g g' /\
    moveClock g' = moveClock g /\ startPos g' = startPos g /\
    (ev <> KeyPressed Keyboard.P -> paused g' = paused g).
Proof.
  intros Hev. destruct ev as [|code|]; cbn [handleEvent].
  - eexists. split; [reflexivity|]. unfold sameBoard; cbn. auto 12.
  - destruct (Keyboard.eqb code Keyboard.R) eqn:ER.
    { apply Keyboard_eqb_eq in ER. congruence. }
    cbn [bind]. eexists. split; [reflexivity|].
    destruct (steer_fields code (snake g)) as (Eb & Eg & _).
    assert (EP : code <> Keyboard.P -> Keyboard.eqb code Keyboard.P = false).
    { intros Hn. destruct (Keyboard.eqb code Keyboard.P) eqn:E; [|reflexivity].
      apply Keyboard_eqb_eq in E. contradiction. }
    destruct (Keyboard.eqb code Keyboard.Escape),
             (Keyboard.eqb code Keyboard.P) eqn:EP';
      cbn [gameOver set_paused set_isOpen]; destruct (gameOver g) eqn:Eo;
      unfold sameBoard; cbn; rewrite ?Eb, ?Eg, ?Eo;
      (repeat split; try reflexivity);
      intros Hn; (assert (Hp : code <> Keyboard.P) by congruence);
      apply EP in Hp; discriminate Hp.
  - eexists. split; [reflexivity|]. unfold sameBoard. auto 12.
Qed.

Lemma sameBoard_trans g1 g2 g3 :
  sameBoard g1 g2 -> sameBoard g2 g3 -> sameBoard g1 g3.
Proof.
  unfold sameBoard. intros (A1 & A2 & A3 & A4 & A5 & A6 & A7 & A8)
                           (B1 & B2 & B3 & B4 & B5 & B6 & B7 & B8).
  repeat split; congruence.
Qed.

Lemma sameBoard_refl g : sameBoard g g.
Proof. unfold sameBoard. auto 12. Qed.

(** X5: handling events cannot move the snake or touch the score: as long
    as the key R is not among them, the events of a frame are all handled
    (no loop is involved) and leave body, growth flag, score, food,
    generator, configuration, accumulator, game-over flag and clock as they
    were; without the key P the pause flag stays too.  Only the stored
    direction, the pause flag and the window can change. *)
Theorem events_keep_board (fuel : nat) (now : Z) (evs : list Event) g :
  ~ In (KeyPressed Keyboard.R) evs ->
  exists g',
    pollEvents fuel now evs g = Ok g' /\ sameBoard g g' /\
    moveClock g' = moveClock g /\
    (~ In (KeyPressed Keyboard.P) evs -> paused g' = paused g).
Proof.
  revert g; induction evs as [|ev evs IH]; intros g Hno; cbn [pollEvents].
  - exists g. split; [reflexivity|]. split; [apply sameBoard_refl|]. auto.
  - destruct (isOpen g).
    2:{ exists g. split; [reflexivity|]. split; [apply sameBoard_refl|]. auto. }
    destruct (handleEvent_board fuel now ev g) as (g1 & -> & B1 & C1 & _ & P1).
    { intros ->. apply Hno. left; reflexivity. }
    cbn [bind].
    destruct (IH g1) as (g2 & -> & B2 & C2 & P2).
    { intros H. apply Hno. right; exact H. }
    exists g2. split; [reflexivity|].
    split; [apply (sameBoard_trans g g1 g2 B1 B2)|].
    split; [congruence|].
    intros HP. rewrite P2, P1; [reflexivity| |].
    + intros ->. apply HP. left; reflexivity.
    + intros H. apply HP. right; exact H.
Qed.

(** X6: the key P is a toggle: one press flips the pause flag and changes
    nothing else, whether the game is running, paused or over, so that two
    presses in a row give back the very state they found. *)
Theorem pause_twice (fuel : nat) (now : Z) g :
  isOpen g = true ->
  pollEvents fuel now [KeyPressed Keyboard.P] g
    = Ok (set_paused (negb (paused g)) g) /\
  pollEvents fuel now [KeyPressed Keyboard.P; KeyPressed Keyboard.P] g = Ok g.
Proof.
  intros Ho. destruct g as [c sp s r f sc p o mc a io]. cbn in Ho. subst io.
  destruct s as [b d gn]. destruct p, o; split; reflexivity.
Qed.

Lemma frame_paused (fuel : nat) (fr : Frame) g :
  paused g = true -> no_pause_no_restart fr ->
  exists g', frame fuel fr g = Ok g' /\ sameBoard g g' /\
             paused g' = true /\ moveClock g' = tUpdate fr.
Proof.
  intros Hp [HR HP]. unfold frame.
  destruct (events_keep_board fuel (tPoll fr) (events fr) g HR)
    as (g1 & -> & B1 & _ & P1).
  cbn [bind]. specialize (P1 HP). rewrite Hp in P1.
  rewrite update_idle by (left; exact P1).
  eexists. split; [reflexivity|]. split; [|cbn; auto].
  unfold sameBoard in *. cbn. exact B1.
Qed.

(** X7: a paused session does not advance: frames that bring neither P nor
    R all run and leave body, growth flag, score, food, accumulator and
    interval untouched and the session paused, however much time they
    take.  The direction keys are still honoured meanwhile. *)
Theorem paused_frames_keep_board (fuel : nat) (frs : list Frame) g :
  paused g = true ->
  Forall no_pause_no_restart frs ->
  exists g', run fuel frs g = Ok g' /\ sameBoard g g' /\ paused g' = true.
Proof.
  revert g; induction frs as [|fr frs IH]; intros g Hp Hno; cbn [run].
  - exists g. split; [reflexivity|]. split; [apply sameBoard_refl|exact Hp].
  - destruct (isOpen g).
    2:{ exists g. split; [reflexivity|].
        split; [apply sameBoard_refl|exact Hp]. }
    inversion Hno as [|? ? Hfr Hfrs]; subst.
    destruct (frame_paused fuel fr g Hp Hfr) as (g1 & -> & B1 & P1 & _).
    cbn [bind]. destruct (IH g1 P1 Hfrs) as (g2 & -> & B2 & P2).
    exists g2. split; [reflexivity|].
    split; [apply (sameBoard_trans g g1 g2 B1 B2)|exact P2].
Qed.

(** X8: the key R works from every state, paused and game over included:
    provided the generator names a cell off the new snake, the handler
    returns with the snake rebuilt from [startPos] (five cells, facing
    right, no growth pending), the score at 0, both flags cleared, the food
    off the snake and the clock restarted; the configuration and the
    accumulator are passed on as they were. *)
Theorem restart_from_any_state (fuel : nat) (now : Z) g :
  drawsFree fuel (cfg g) (Snake.make (startPos g) 5) (rng g) = true ->
  exists g',
    handleEvent fuel now (KeyPressed Keyboard.R) g = Ok g' /\
    snake g' = Snake.make (startPos g) 5 /\
    score g' = 0 /\ paused g' = false /\ gameOver g' = false /\
    ~ In (food g') (body (snake g')) /\
    moveClock g' = now /\
    cfg g' = cfg g /\ acc g' = acc g /\ isOpen g' = isOpen g /\
    startPos g' = startPos g.
Proof.
  intros Hfree. cbn [handleEvent Keyboard.eqb bind].
  destruct (placeFood_terminates fuel
              (set_snake (Snake.make (startPos g) 5) g) Hfree) as [g1 Hp].
  unfold restart. rewrite Hp. cbn [bind].
  destruct (placeFood_inv _ _ _ Hp) as (p & r & -> & Hocc & _).
  apply occupies_not_In in Hocc.
  eexists. split; [reflexivity|]. cbn. auto 12.
Qed.

(** ** A fatal pass *)

(** X9: a pass whose new head is on the grid but on a segment of the moved
    body sets [gameOver] and leaves the loop at once; the food is not
    looked at: score, food, generator and interval stay as they are, and
    one interval has been taken off the accumulator. *)
Theorem self_collision_ends_game (fuel : nat) g (s' : Snake) (nh : Vec2i) :
  Snake.move (snake g) = Ok s' ->
  Snake.head s' = Ok nh ->
  outside (cfg g) nh = false ->
  Snake.collidesWithSelf s' = Ok true ->
  exists g',
    iteration fuel g = Ok (Break, g') /\
    gameOver g' = true /\ snake g' = s' /\
    score g' = score g /\ food g' = food g /\ rng g' = rng g /\
    cfg g' = cfg g /\
    acc g' = F32.sub (acc g) (moveInterval (cfg g)) /\
    (F32.geb (acc g) (moveInterval (cfg g)) = true ->
     moveLoop (S fuel) g = Ok g').
Proof.
  intros Hm Hh Hout Hself.
  destruct (move_head_inv _ _ _ Hm Hh) as (h & t & E & Enh & Es').
  unfold Snake.collidesWithSelf in Hself. rewrite Hh in Hself.
  cbn [bind] in Hself. apply Ok_inj in Hself.
  pose proof (iteration_cons fuel g h t E) as Hit. cbv zeta in Hit.
  rewrite <- Enh, <- Es', Hout, Hself in Hit.
  eexists. split; [exact Hit|]. cbn.
  repeat split; try reflexivity.
  intros Hacc. rewrite Hacc, Hit. reflexivity.
Qed.

End Coverage.

(** ** The layout of the board *)

Lemma inside_nearGrid (c : GameConfig) (p : Vec2i) : inside c p -> nearGrid c p.
Proof. unfold inside, nearGrid. lia. Qed.

Lemma nearGrid_step (c : GameConfig) (h d : Vec2i) :
  inside c h -> In d directions -> nearGrid c (Vec2i_add h d).
Proof.
  unfold inside, nearGrid, directions. intros Hh Hd. simpl in Hd.
  destruct Hd as [<-|[<-|[<-|[<-|[]]]]]; simpl; lia.
Qed.

Lemma chained_push (b : bool) (h d : Vec2i) (t : list Vec2i) :
  chained (h :: t) -> In d directions ->
  chained (Vec2i_add h d :: (if b then h :: t else removelast (h :: t))).
Proof.
  intros Hc Hd. destruct b.
  - split; [exists d; auto|exact Hc].
  - destruct t as [|c t]; [exact I|].
    rewrite removelast_cons2. split; [exists d; auto|].
    apply (chained_removelast (h :: c :: t)), Hc.
Qed.

Lemma length_push (b : bool) (nh h : Vec2i) (t : list Vec2i) :
  Z.of_nat (length (nh :: (if b then h :: t else removelast (h :: t))))
  = Z.of_nat (length (h :: t)) + (if b then 1 else 0).
Proof.
  destruct b.
  - cbn [length]. lia.
  - change (Z.of_nat (S (length (removelast (h :: t))))
            = Z.of_nat (S (length t)) + 0).
    rewrite length_removelast_cons. lia.
Qed.

Section LayoutInvariant.

Context {G : Type} {RS : RandomSource G}.

Implicit Types g : Game G.

Lemma layout_same g g' :
  cols (cfg g') = cols (cfg g) -> rows (cfg g') = rows (cfg g) ->
  snake g' = snake g -> food g' = food g -> score g' = score g ->
  layout g -> layout g'.
Proof.
  intros Ec Er Es Ef Esc [L1 L2 L3 L4 L6 L5].
  constructor; unfold inside, nearGrid in *;
    rewrite ?Ec, ?Er, ?Es, ?Ef, ?Esc; assumption.
Qed.

Lemma layout_sameBoard g g' : sameBoard g g' -> layout g -> layout g'.
Proof.
  intros (Eb & Eg & Esc & Ef & _ & Ec & _) [L1 L2 L3 L4 L6 L5].
  constructor; rewrite ?Ec, ?Eb, ?Eg, ?Ef, ?Esc; assumption.
Qed.

Lemma startSnake_layout (c : GameConfig) :
  cols c = 32 -> rows c = 24 ->
  Forall (inside c) (tl (body startSnake)) /\
  Forall (nearGrid c) (body startSnake) /\
  chained (body startSnake).
Proof.
  intros Hc Hr.
  destruct (startSnake_wellFormed c Hc Hr) as (_ & Hin & _).
  split; [inversion Hin; assumption|].
  split; [|apply chained_row].
  revert Hin. apply Forall_impl. intros p. apply inside_nearGrid.
Qed.

Lemma layout_init (fuel : nat) (r0 : G) (t0 : Z) g :
  initGame fuel r0 t0 = Ok g -> layout g.
Proof.
  unfold initGame. intros H.
  destruct (placeFood_inv _ _ _ H) as (p & r & -> & _ & Hin).
  destruct (startSnake_layout defaultConfig eq_refl eq_refl) as (T & N & C).
  constructor; cbn [cfg food snake score set_food set_rng];
    try assumption.
  - apply Hin; reflexivity.
  - rewrite make_body_length. apply Nat.le_refl.
  - reflexivity.
Qed.

Lemma layout_restart (fuel : nat) (now : Z) g g' :
  invariant g -> restart fuel now g = Ok g' -> layout g'.
Proof.
  intros [H1 H2 H3 _ _ _ _ _] H. unfold restart in H.
  destruct (placeFood fuel (set_snake (Snake.make (startPos g) 5) g))
    as [g1| |] eqn:Hp; try discriminate.
  cbn [bind] in H. apply Ok_inj in H. subst g'.
  destruct (placeFood_inv _ _ _ Hp) as (p & r & -> & _ & Hin).
  cbn [cfg set_snake] in Hin.
  destruct (startSnake_layout (cfg g) H1 H2) as (T & N & C).
  constructor; cbn [cfg food snake score set_food set_rng set_snake set_score
                    set_paused set_gameOver set_moveClock];
    rewrite ?H3; try assumption.
  - apply Hin; lia.
  - rewrite make_body_length. apply Nat.le_refl.
  - reflexivity.
Qed.

Lemma layout_handleEvent (fuel : nat) (now : Z) (ev : Event) g g' :
  invariant g -> layout g -> handleEvent fuel now ev g = Ok g' -> layout g'.
Proof.
  intros Inv L H.
  assert (Hdec : ev = KeyPressed Keyboard.R \/ ev <> KeyPressed Keyboard.R).
  { destruct ev as [|code|]; try (right; discriminate).
    destruct code; try (right; discriminate). left; reflexivity. }
  destruct Hdec as [-> | Hne].
  - cbn [handleEvent Keyboard.eqb] in H.
    destruct (restart fuel now g) as [g3| |] eqn:Er; try discriminate.
    cbn [bind] in H. apply Ok_inj in H. subst g'.
    pose proof (layout_restart fuel now g g3 Inv Er) as L3.
    destruct (negb (gameOver g3)); [|exact L3].
    revert L3. apply layout_same; reflexivity.
  - destruct (handleEvent_board fuel now ev g Hne) as (g1 & E1 & B & _).
    rewrite E1 in H. apply Ok_inj in H. subst g1.
    apply (layout_sameBoard g g' B L).
Qed.

Lemma layout_pollEvents (fuel : nat) (now : Z) (evs : list Event) g g' :
  invariant g -> layout g -> pollEvents fuel now evs g = Ok g' -> layout g'.
Proof.
  revert g; induction evs as [|ev evs IH]; intros g Inv L H;
    cbn [pollEvents] in H.
  - apply Ok_inj in H. subst; exact L.
  - destruct (isOpen g).
    + destruct (handleEvent fuel now ev g) as [g1| |] eqn:E; try discriminate.
      cbn [bind] in H. apply (IH g1); [| |exact H].
      * apply (invariant_handleEvent fuel now ev g g1 Inv E).
      * apply (layout_handleEvent fuel now ev g g1 Inv L E).
    + apply Ok_inj in H. subst; exact L.
Qed.

Lemma layout_iteration (fuel : nat) g g' (fl : flow) :
  invariant g -> layout g -> gameOver g = false ->
  iteration fuel g = Ok (fl, g') -> layout g'.
Proof.
  intros [H1 H2 H3 H4 H5 H6 H7 H8] [L1 L2 L3 L4 L6 L5] Halive H.
  destruct (H8 Halive) as (Hnd & Hin & Hfood).
  destruct (body (snake g)) as [|h t] eqn:E; [congruence|].
  rewrite (iteration_cons fuel g h t E) in H. cbv zeta in H.
  destruct (kept_body (growNext (snake g)) h t) as (_ & Kin & _).
  cbv zeta in Kin.
  pose proof (chained_push (growNext (snake g)) h (dir (snake g)) t L4 H5)
    as Hchain.
  pose proof (length_push (growNext (snake g))
                (Vec2i_add h (dir (snake g))) h t) as Hlen.
  assert (Hnear : nearGrid (cfg g) (Vec2i_add h (dir (snake g)))).
  { apply nearGrid_step; [inversion Hin; assumption|exact H5]. }
  assert (Hrest : Forall (inside (cfg g))
                    (if growNext (snake g) then h :: t
                     else removelast (h :: t))) by (apply Kin, Hin).
  set (nh := Vec2i_add h (dir (snake g))) in *.
  set (rest := if growNext (snake g) then h :: t else removelast (h :: t)) in *.
  assert (Hall : Forall (nearGrid (cfg g)) (nh :: rest)).
  { constructor; [exact Hnear|].
    revert Hrest. apply Forall_impl. intros p. apply inside_nearGrid. }
  assert (Hscore : score g = 10 * (Z.of_nat (length (nh :: rest)) + 0 - 5))
    by (rewrite L5, Hlen; lia).
  assert (Hlong : (5 <= length (nh :: rest))%nat)
    by (destruct (growNext (snake g)); lia).
  assert (Lplain : layout (set_snake {| body := nh :: rest;
                                        dir := dir (snake g);
                                        growNext := false |}
                             (set_acc (F32.sub (acc g) (moveInterval (cfg g)))
                                      g))).
  { constructor; cbn [cfg food snake score set_snake set_acc body growNext tl];
      assumption. }
  cbn [body tl] in H.
  destruct (outside (cfg g) nh).
  { apply Ok_inj in H. injection H as <- <-.
    revert Lplain. apply layout_same; reflexivity. }
  destruct (existsb (fun seg => Vec2i_eqb seg nh) rest).
  { apply Ok_inj in H. injection H as <- <-.
    revert Lplain. apply layout_same; reflexivity. }
  destruct (Vec2i_eqb nh (food g)).
  - match type of H with
    | context [placeFood fuel ?gm] =>
        destruct (placeFood fuel gm) as [g2| |] eqn:Hp; try discriminate
    end.
    cbn [bind] in H. apply Ok_inj in H. injection H as <- <-.
    destruct (placeFood_inv _ _ _ Hp) as (p & r & -> & _ & Hp_in).
    cbn [cfg set_score set_snake set_acc] in Hp_in.
    match goal with
    | |- layout (speedUp ?gm) =>
        destruct (speedUp_fields gm)
          as (Es & Ef & Esc & _ & _ & _ & _ & _ & _ & _ & Ec & Er);
        apply (layout_same gm (speedUp gm) Ec Er Es Ef Esc)
    end.
    constructor;
      cbn [cfg food snake score set_food set_rng set_score set_snake set_acc
           body growNext tl Snake.grow];
      try assumption.
    + apply Hp_in; lia.
    + rewrite Hscore. lia.
  - apply Ok_inj in H. injection H as <- <-. exact Lplain.
Qed.

Lemma layout_moveLoop (fuel : nat) g g' :
  invariant g -> layout g -> gameOver g = false ->
  moveLoop fuel g = Ok g' -> layout g'.
Proof.
  revert g; induction fuel as [|fuel IH]; intros g Inv L Halive H;
    cbn [moveLoop] in H;
    destruct (F32.geb (acc g) (moveInterval (cfg g)));
    try discriminate;
    try (apply Ok_inj in H; subst g'; exact L).
  destruct (iteration fuel g) as [[fl g1]| |] eqn:Eit; try discriminate.
  cbn [bind] in H.
  destruct (invariant_iteration fuel g g1 fl Inv Halive Eit)
    as (Inv1 & _ & Hc & _).
  pose proof (layout_iteration fuel g g1 fl Inv L Halive Eit) as L1.
  destruct fl.
  - apply (IH g1 Inv1 L1 (Hc eq_refl) H).
  - apply Ok_inj in H. subst g'. exact L1.
Qed.

Lemma layout_frame (fuel : nat) (fr : Frame) g g' :
  invariant g -> layout g -> frame fuel fr g = Ok g' -> layout g'.
Proof.
  intros Inv L H. unfold frame in H.
  destruct (pollEvents fuel (tPoll fr) (events fr) g) as [g1| |] eqn:E;
    try discriminate.
  cbn [bind] in H.
  pose proof (invariant_pollEvents _ _ _ _ _ Inv E) as Inv1.
  pose proof (layout_pollEvents _ _ _ _ _ Inv L E) as L1.
  unfold update in H.
  destruct (negb (paused g1) && negb (gameOver g1)) eqn:Erun.
  - cbn [Clock.restart] in H.
    apply andb_true_iff in Erun. destruct Erun as [_ Eo].
    apply negb_true_iff in Eo.
    apply layout_moveLoop in H; [exact H| | |exact Eo].
    + revert Inv1. apply invariant_same; reflexivity.
    + revert L1. apply layout_same; reflexivity.
  - apply Ok_inj in H. subst g'.
    revert L1. apply layout_same; reflexivity.
Qed.

Lemma reachable_layout g : reachable g -> layout g.
Proof.
  induction 1 as [fuel r0 t0 g H | fuel fr g g' Hr IH _ H].
  - apply (layout_init fuel r0 t0 g H).
  - apply (layout_frame fuel fr g g' (reachable_invariant g Hr) IH H).
Qed.

(** X10: the body is as long as the score says: five cells plus one per
    meal, the cell of the latest meal being added by the step that follows
    it.  The score is therefore a multiple of 10 and never negative. *)
Theorem length_follows_score g :
  reachable g ->
  score g = 10 * (Z.of_nat (length (body (snake g)))
                  + (if growNext (snake g) then 1 else 0) - 5) /\
  (5 <= length (body (snake g)))%nat.
Proof.
  intros Hr. split.
  - apply (lay_score g (reachable_layout g Hr)).
  - apply (lay_length g (reachable_layout g Hr)).
Qed.

(** X11: the food is always on the grid; every segment behind the head is
    on the grid, game over or not, and the head is never more than one cell
    off it; while the game is not over the whole snake is on the grid and
    the food is not under it. *)
Theorem snake_stays_by_the_grid g :
  reachable g ->
  inside (cfg g) (food g) /\
  Forall (inside (cfg g)) (tl (body (snake g))) /\
  Forall (nearGrid (cfg g)) (body (snake g)) /\
  (gameOver g = false ->
   Forall (inside (cfg g)) (body (snake g)) /\
   ~ In (food g) (body (snake g))).
Proof.
  intros Hr. destruct (reachable_layout g Hr) as [L1 L2 L3 _ _ _].
  split; [exact L1|]. split; [exact L2|]. split; [exact L3|].
  intros Ho.
  destruct (inv_alive g (reachable_invariant g Hr) Ho) as (_ & Hin & Hf).
  auto.
Qed.

(** X12: the snake is one unbroken path: the stored direction is one of the
    four unit directions, and each segment lies one cell up, down, left or
    right of the segment behind it. *)
Theorem body_is_a_path g :
  reachable g ->
  In (dir (snake g)) directions /\ chained (body (snake g)).
Proof.
  intros Hr. split.
  - apply (inv_dir g (reachable_invariant g Hr)).
  - apply (lay_chain g (reachable_layout g Hr)).
Qed.

(** X13: at the top of the main loop a Running session has no step
    pending: the loop test [acc >= cfg.moveInterval] is false.  Whenever
    the update has run its loop without ending the game, it has left the
    loop through that test. *)
Theorem running_has_no_backlog g :
  reachable g -> running g ->
  F32.geb (acc g) (moveInterval (cfg g)) = false.
Proof.
  intros Hr [Hp Ho]. destruct Hr as [fuel r0 t0 g H | fuel fr g g' Hr _ H].
  - unfold initGame in H.
    destruct (placeFood_inv _ _ _ H) as (p & r & -> & _). reflexivity.
  - unfold frame in H.
    destruct (pollEvents fuel (tPoll fr) (events fr) g) as [g1| |] eqn:E;
      try discriminate.
    cbn [bind] in H.
    pose proof (invariant_pollEvents _ _ _ _ _ (reachable_invariant g Hr) E)
      as Inv1.
    unfold update in H.
    destruct (negb (paused g1) && negb (gameOver g1)) eqn:Erun.
    + cbn [Clock.restart] in H.
      apply andb_true_iff in Erun. destruct Erun as [_ Eo].
      apply negb_true_iff in Eo.
      apply invariant_moveLoop in H; [apply H, Ho| |exact Eo].
      revert Inv1. apply invariant_same; reflexivity.
    + apply Ok_inj in H. subst g'. cbn in Hp, Ho.
      rewrite Hp, Ho in Erun. discriminate.
Qed.

End LayoutInvariant.

(** * The further scenarios *)

Lemma slow_reachable : reachable slow.
Proof.
  apply (run_reachable 3 (autopilot 620 0 routeStart) routeStart).
  - exact routeStart_reachable.
  - exact slow_run.
Qed.

Lemma crashed_reachable : reachable crashed.
Proof.
  apply (run_reachable 3 (toTheWall ++ [stalled]) wallStart).
  - exact wallStart_reachable.
  - vm_compute. reflexivity.
Qed.

Lemma placeFood_finds_free_cell_witness :
  placeFood 2 (set_rng [16; 12; 3; 3] mealStart)
    = Ok (set_food (vec2i 3 3) (set_rng [] mealStart)) /\
  placeFood 2 crowded = OutOfFuel.
Proof.
  split.
  - destruct (placeFood_finds_free_cell 2 (set_rng [16; 12; 3; 3] mealStart))
      as [H _]; [reflexivity|reflexivity|].
    destruct H as (k & Hk & Hbusy & Hoff & _ & Hp); [reflexivity|].
    destruct k as [|[|k]]; [| |lia].
    + exfalso. apply Hoff. vm_compute. left; reflexivity.
    + exact Hp.
  - destruct (placeFood_finds_free_cell 2 crowded) as [_ H];
      [reflexivity|reflexivity|].
    apply H. reflexivity.
Defined.

Lemma placeFood_full_grid_witness : placeFood 7 crowded = OutOfFuel.
Proof.
  apply placeFood_full_grid; [reflexivity|reflexivity|].
  intros [px py] [Hx Hy]. cbn in Hx, Hy |- *.
  assert (Ey : py = 0) by lia. subst py.
  assert (Ex : px = 1 \/ px = 0) by lia.
  destruct Ex as [-> | ->]; [left|right; left]; reflexivity.
Defined.

Lemma events_keep_board_witness :
  exists g',
    pollEvents 0 130000
      [KeyPressed Keyboard.Up; KeyPressed Keyboard.P; OtherEvent;
       KeyPressed Keyboard.Escape; KeyPressed Keyboard.Left] fed = Ok g' /\
    body (snake g') = body (snake fed) /\ score g' = score fed /\
    acc g' = acc fed /\ moveClock g' = moveClock fed.
Proof.
  destruct (events_keep_board 0 130000
              [KeyPressed Keyboard.Up; KeyPressed Keyboard.P; OtherEvent;
               KeyPressed Keyboard.Escape; KeyPressed Keyboard.Left] fed)
    as (g' & Hp & (Eb & _ & Es & _ & _ & _ & Ea & _) & Ec & _).
  - simpl. intros H.
    repeat (destruct H as [H|H]; [discriminate H|]). exact H.
  - exists g'. auto.
Defined.

Lemma pause_twice_witness :
  pollEvents 0 130000 [KeyPressed Keyboard.P] crashed
    = Ok (set_paused true crashed) /\
  pollEvents 0 130000 [KeyPressed Keyboard.P; KeyPressed Keyboard.P] crashed
    = Ok crashed.
Proof. apply (pause_twice 0 130000 crashed). reflexivity. Defined.

Lemma paused_frames_keep_board_witness :
  exists g',
    run 0 (frames_from 130000 1000000
             [[KeyPressed Keyboard.Up]; []; [KeyPressed Keyboard.Left]])
        fedPaused = Ok g' /\
    body (snake g') = body (snake fed) /\ score g' = score fed /\
    acc g' = acc fed /\ paused g' = true.
Proof.
  destruct (paused_frames_keep_board 0
              (frames_from 130000 1000000
                 [[KeyPressed Keyboard.Up]; []; [KeyPressed Keyboard.Left]])
              fedPaused)
    as (g' & Hr & (Eb & _ & Es & _ & _ & _ & Ea & _) & Ep).
  - reflexivity.
  - simpl.
    repeat (constructor;
            [split; simpl; intros H;
             repeat (destruct H as [H|H]; [discriminate H|]); exact H|]).
    constructor.
  - exists g'. split; [exact Hr|]. split; [exact Eb|]. split; [exact Es|].
    split; [exact Ea|exact Ep].
Defined.

Lemma restart_from_any_state_witness :
  exists g',
    handleEvent 1 2808333 (KeyPressed Keyboard.R) crashed = Ok g' /\
    snake g' = startSnake /\ score g' = 0 /\ gameOver g' = false /\
    acc g' = acc crashed.
Proof.
  destruct (restart_from_any_state 1 2808333 crashed)
    as (g' & Hh & Hs & Hsc & _ & Ho & _ & _ & _ & Ha & _).
  - reflexivity.
  - exists g'. auto.
Defined.

Lemma self_collision_ends_game_witness :
  exists g',
    iteration 0 reversed = Ok (Break, g') /\
    gameOver g' = true /\ score g' = score reversed.
Proof.
  destruct (self_collision_ends_game 0 reversed
              {| body := [vec2i 16 12; vec2i 17 12; vec2i 16 12;
                          vec2i 15 12; vec2i 14 12];
                 dir := vec2i (-1) 0; growNext := false |}
              (vec2i 16 12))
    as (g' & Hit & Ho & _ & Hs & _); try reflexivity.
  exists g'. auto.
Defined.

Lemma length_follows_score_witness :
  score slow = 10 * (Z.of_nat (length (body (snake slow))) + 1 - 5) /\
  (5 <= length (body (snake slow)))%nat.
Proof. apply (length_follows_score slow). exact slow_reachable. Defined.

Lemma snake_stays_by_the_grid_witness :
  inside (cfg crashed) (food crashed) /\
  Forall (inside (cfg crashed)) (tl (body (snake crashed))) /\
  Forall (nearGrid (cfg crashed)) (body (snake crashed)).
Proof.
  destruct (snake_stays_by_the_grid crashed) as (H1 & H2 & H3 & _).
  - exact crashed_reachable.
  - auto.
Defined.

Lemma body_is_a_path_witness :
  In (dir (snake slow)) directions /\ chained (body (snake slow)).
Proof. apply (body_is_a_path slow). exact slow_reachable. Defined.

Lemma running_has_no_backlog_witness :
  F32.geb (acc slow) (moveInterval (cfg slow)) = false.
Proof.
  apply (running_has_no_backlog slow).
  - exact slow_reachable.
  - split; reflexivity.
Defined.

(** * The window *)

Section Window.

Context {G : Type} {RS : RandomSource G}.

Implicit Types g : Game G.

Lemma closing_dec (ev : Event) : closing ev \/ ~ closing ev.
Proof.
  unfold closing. destruct ev as [|code|].
  - left; left; reflexivity.
  - destruct code; try (right; intros [H|H]; discriminate H).
    left; right; reflexivity.
  - right; intros [H|H]; discriminate H.
Qed.

Lemma restart_isOpen (fuel : nat) (now : Z) g g' :
  restart fuel now g = Ok g' -> isOpen g' = isOpen g.
Proof.
  unfold restart. intros H.
  destruct (placeFood fuel (set_snake (Snake.make (startPos g) 5) g))
    as [g1| |] eqn:Hp; try discriminate.
  cbn [bind] in H. apply Ok_inj in H. subst g'.
  destruct (placeFood_inv _ _ _ Hp) as (p & r & -> & _). reflexivity.
Qed.

Lemma handleEvent_isOpen (fuel : nat) (now : Z) (ev : Event) g g' :
  handleEvent fuel now ev g = Ok g' ->
  (closing ev -> isOpen g' = false) /\
  (~ closing ev -> isOpen g' = isOpen g).
Proof.
  unfold closing. destruct ev as [|code|]; cbn [handleEvent]; intros H.
  - apply Ok_inj in H. subst g'. split; [reflexivity|]. intros Hn.
    exfalso. apply Hn. left; reflexivity.
  - set (g1 := if Keyboard.eqb code Keyboard.Escape
               then set_isOpen false g else g) in H.
    set (g2 := if Keyboard.eqb code Keyboard.P
               then set_paused (negb (paused g1)) g1 else g1) in H.
    assert (E2 : isOpen g2 = isOpen g1)
      by (subst g2; destruct (Keyboard.eqb code Keyboard.P); reflexivity).
    assert (E3 : isOpen g' = isOpen g2).
    { clearbody g2. destruct (Keyboard.eqb code Keyboard.R).
      - destruct (restart fuel now g2) as [g3| |] eqn:Er; try discriminate.
        cbn [bind] in H. apply Ok_inj in H. subst g'.
        rewrite <- (restart_isOpen _ _ _ _ Er).
        destruct (negb (gameOver g3)); reflexivity.
      - cbn [bind] in H. apply Ok_inj in H. subst g'.
        destruct (negb (gameOver g2)); reflexivity. }
    rewrite E3, E2. subst g1. split.
    + intros [Hc|Hc]; [discriminate Hc|]. injection Hc as ->. reflexivity.
    + intros Hn. destruct (Keyboard.eqb code Keyboard.Escape) eqn:E;
        [|reflexivity].
      apply Keyboard_eqb_eq in E. subst code. exfalso. apply Hn. auto.
  - apply Ok_inj in H. subst g'. split; [|reflexivity].
    intros [Hc|Hc]; discriminate Hc.
Qed.

Lemma pollEvents_isOpen (fuel : nat) (now : Z) (evs : list Event) g g' :
  isOpen g = true ->
  pollEvents fuel now evs g = Ok g' ->
  (isOpen g' = false <-> exists ev, In ev evs /\ closing ev).
Proof.
  revert g; induction evs as [|ev evs IH]; intros g Ho H; cbn [pollEvents] in H.
  - apply Ok_inj in H. subst g'. split; [congruence|]. intros (ev & [] & _).
  - rewrite Ho in H.
    destruct (handleEvent fuel now ev g) as [g1| |] eqn:E; try discriminate.
    cbn [bind] in H.
    destruct (handleEvent_isOpen _ _ _ _ _ E) as [Hc Hn].
    destruct (closing_dec ev) as [Hcl|Hcl].
    + specialize (Hc Hcl). destruct evs as [|ev2 evs];
        cbn [pollEvents] in H; rewrite ?Hc in H;
        apply Ok_inj in H; subst g';
        (split; [intros _; exists ev; split; [left; reflexivity|exact Hcl]
                |intros _; exact Hc]).
    + specialize (Hn Hcl). rewrite Ho in Hn.
      rewrite (IH g1 Hn H). split.
      * intros (e & He & Hce). exists e. split; [right; exact He|exact Hce].
      * intros (e & [<-|He] & Hce); [contradiction|]. exists e. auto.
Qed.

Lemma iteration_isOpen (fuel : nat) g g' (fl : flow) :
  iteration fuel g = Ok (fl, g') -> isOpen g' = isOpen g.
Proof.
  intros H.
  destruct (body (snake g)) as [|h t] eqn:E.
  { unfold iteration, Snake.move, Snake.head in H.
    cbn [snake set_acc] in H. rewrite E in H. discriminate. }
  rewrite (iteration_cons fuel g h t E) in H. cbv zeta in H.
  repeat match type of H with
         | (if ?b then _ else _) = _ => destruct b
         end;
    try (apply Ok_inj in H; injection H as <- <-; reflexivity).
  match type of H with
  | context [placeFood fuel ?gm] =>
      destruct (placeFood fuel gm) as [g2| |] eqn:Hp; try discriminate
  end.
  cbn [bind] in H. apply Ok_inj in H. injection H as <- <-.
  destruct (placeFood_inv _ _ _ Hp) as (p & r & -> & _).
  match goal with
  | |- isOpen (speedUp ?gm) = _ =>
      destruct (speedUp_fields gm) as (_ & _ & _ & _ & _ & _ & _ & _ & -> & _)
  end.
  reflexivity.
Qed.

Lemma moveLoop_isOpen (fuel : nat) g g' :
  moveLoop fuel g = Ok g' -> isOpen g' = isOpen g.
Proof.
  revert g; induction fuel as [|fuel IH]; intros g H;
    cbn [moveLoop] in H;
    destruct (F32.geb (acc g) (moveInterval (cfg g)));
    try discriminate;
    try (apply Ok_inj in H; subst g'; reflexivity).
  destruct (iteration fuel g) as [[fl g1]| |] eqn:Eit; try discriminate.
  cbn [bind] in H. apply iteration_isOpen in Eit. rewrite <- Eit.
  destruct fl; [apply IH, H|].
  apply Ok_inj in H. subst g'. reflexivity.
Qed.

Lemma update_isOpen (fuel : nat) (now : Z) g g' :
  update fuel now g = Ok g' -> isOpen g' = isOpen g.
Proof.
  unfold update. destruct (negb (paused g) && negb (gameOver g)).
  - cbn [Clock.restart]. intros H. apply moveLoop_isOpen in H. exact H.
  - intros H. apply Ok_inj in H. subst g'. reflexivity.
Qed.

(** X14: the window closes on request and on nothing else: a frame ends
    with the window closed exactly when its events hold a close event or
    the key Escape, whatever the game does in that frame (a game over does
    not close it); and once the window is closed the main loop plays no
    further frame. *)
Theorem window_closes_on_request (fuel : nat) (fr : Frame) g g' :
  isOpen g = true ->
  frame fuel fr g = Ok g' ->
  (isOpen g' = false <-> exists ev, In ev (events fr) /\ closing ev) /\
  (isOpen g' = false -> forall frs, run fuel frs g' = Ok g').
Proof.
  intros Ho H. unfold frame in H.
  destruct (pollEvents fuel (tPoll fr) (events fr) g) as [g1| |] eqn:E;
    try discriminate.
  cbn [bind] in H. apply update_isOpen in H. rewrite H. split.
  - apply (pollEvents_isOpen fuel (tPoll fr) (events fr) g g1 Ho E).
  - intros Hc frs. destruct frs as [|fr' frs]; cbn [run]; [reflexivity|].
    rewrite H, Hc. reflexivity.
Qed.

End Window.

Lemma window_closes_on_request_witness :
  exists g',
    frame 3 {| events := [KeyPressed Keyboard.Up; KeyPressed Keyboard.Escape];
               tPoll := 240000; tUpdate := 240000 |} fed = Ok g' /\
    isOpen g' = false /\
    headCell g' = vec2i 17 11 /\
    run 3 (frames_from 240000 120000 [[]; []]) g' = Ok g'.
Proof.
  eexists. split; [vm_compute; reflexivity|].
  match goal with
  | |- isOpen ?g' = false /\ _ =>
      destruct (window_closes_on_request 3
                  {| events := [KeyPressed Keyboard.Up;
                                KeyPressed Keyboard.Escape];
                     tPoll := 240000; tUpdate := 240000 |} fed g')
        as [Hiff Hrun]; [reflexivity|vm_compute; reflexivity|]
  end.
  assert (Hc : exists ev,
             In ev [KeyPressed Keyboard.Up; KeyPressed Keyboard.Escape] /\
             closing ev).
  { exists (KeyPressed Keyboard.Escape). split; [simpl; auto|right; reflexivity]. }
  apply Hiff in Hc. split; [exact Hc|]. split; [reflexivity|].
  apply Hrun, Hc.
Defined.

(** * Meals on consecutive steps and on the last free cell *)

Lemma cells_inside (c : GameConfig) (p : Vec2i) : inside c p -> In p (cells c).
Proof.
  intros [Hx Hy]. unfold cells. apply in_flat_map.
  exists (Z.to_nat (x p)). split; [apply in_seq; lia|].
  apply in_map_iff. exists (Z.to_nat (y p)). split; [|apply in_seq; lia].
  destruct p as [px py]; cbn [x y] in *. f_equal; lia.
Qed.

Lemma covered_cells (c : GameConfig) (l : list Vec2i) :
  forallb (fun p => existsb (fun seg => Vec2i_eqb seg p) l) (cells c) = true ->
  forall p, inside c p -> In p l.
Proof.
  intros H p Hp. rewrite forallb_forall in H.
  apply existsb_eqb_In, H, cells_inside, Hp.
Qed.

Section FullGrid.

Context {G : Type} {RS : RandomSource G}.

(** A meal on the last free cell: the moved snake covers the grid, and the
    pass never gets out of [placeFood]. *)
Lemma meal_on_full_grid (g : Game G) (s' : Snake) (nh : Vec2i) :
  Snake.move (snake g) = Ok s' ->
  Snake.head s' = Ok nh ->
  outside (cfg g) nh = false ->
  Snake.collidesWithSelf s' = Ok false ->
  nh = food g ->
  0 < cols (cfg g) -> 0 < rows (cfg g) ->
  (forall p, inside (cfg g) p -> In p (body s')) ->
  forall fuel, iteration fuel g = OutOfFuel.
Proof.
  intros Hm Hh Hout Hself Hfood Hc Hr Hfull fuel.
  destruct (move_head_inv _ _ _ Hm Hh) as (h & t & E & Enh & Es').
  unfold Snake.collidesWithSelf in Hself. rewrite Hh in Hself.
  cbn [bind] in Hself. apply Ok_inj in Hself.
  rewrite (iteration_cons fuel g h t E). cbv zeta.
  rewrite <- Enh, <- Es', Hout, Hself, Hfood, Vec2i_eqb_refl.
  rewrite placeFood_gives_up; [reflexivity|].
  cbn [cfg snake rng set_score set_snake set_acc].
  apply drawsFree_full_grid; assumption.
Qed.

End FullGrid.

Lemma fedOnce_reachable : reachable fedOnce.
Proof.
  apply (run_reachable 3 (frames_from 0 120000 [[]]) twoMealsStart).
  - apply (reach_init 1%nat [17; 12; 18; 12; 3; 3] 0). reflexivity.
  - vm_compute. reflexivity.
Qed.

Lemma brim_reachable : reachable brim.
Proof.
  apply (run_reachable 3 (pilotAlong fillRoute (vec2i 11 12) 5000 0 fillStart)
           fillStart).
  - apply (reach_init 1%nat (flat_map (fun p => [x p; y p]) fillRoute) 0).
    vm_compute. reflexivity.
  - vm_compute. reflexivity.
Qed.

(** C5, as stated, fails in two ways.  After a first meal the food drops on
    the cell ahead: the next step is a meal again, and it is on this eating
    step that the body goes from five cells to six.  And in a game that has
    filled the grid but for one cell, with the food on that cell, the step
    onto it is a meal without a collision after which no cell is free:
    [placeFood] keeps sampling, and the pass does not end whatever the
    fuel, so neither score nor food is ever handed back. *)
Lemma meal_may_lengthen_or_hang :
  (reachable fedOnce /\ running fedOnce /\
   exists (s' : Snake) (nh : Vec2i) (g' : Game (list Z)),
     Snake.move (snake fedOnce) = Ok s' /\
     Snake.head s' = Ok nh /\
     outside (cfg fedOnce) nh = false /\
     Snake.collidesWithSelf s' = Ok false /\
     nh = food fedOnce /\
     iteration 1 fedOnce = Ok (Continue, g') /\
     length (body (snake fedOnce)) = 5%nat /\
     length (body (snake g')) = 6%nat) /\
  (reachable brim /\ running brim /\
   length (body (snake brim)) = 767%nat /\
   Snake.move (snake brim) = Ok brimMoved /\
   Snake.head brimMoved = Ok (food brim) /\
   outside (cfg brim) (food brim) = false /\
   Snake.collidesWithSelf brimMoved = Ok false /\
   forall fuel, iteration fuel brim = OutOfFuel).
Proof.
  split.
  - split; [exact fedOnce_reachable|]. split; [split; reflexivity|].
    eexists. eexists. eexists.
    repeat (split; [reflexivity|]). reflexivity.
  - assert (Hm : Snake.move (snake brim) = Ok brimMoved)
      by (vm_compute; reflexivity).
    assert (Hh : Snake.head brimMoved = Ok (food brim))
      by (vm_compute; reflexivity).
    assert (Hout : outside (cfg brim) (food brim) = false)
      by (vm_compute; reflexivity).
    assert (Hself : Snake.collidesWithSelf brimMoved = Ok false)
      by (vm_compute; reflexivity).
    split; [exact brim_reachable|]. split; [split; reflexivity|].
    split; [vm_compute; reflexivity|].
    split; [exact Hm|]. split; [exact Hh|]. split; [exact Hout|].
    split; [exact Hself|].
    apply (meal_on_full_grid brim brimMoved (food brim) Hm Hh Hout Hself
             eq_refl); [reflexivity|reflexivity|].
    apply covered_cells. vm_compute. reflexivity.
Qed.
